(** * Verification of the numeric core of the two Streamlit dashboards

    [src/LawOfLargeNumbers.py] (coin-flip simulation, its statistics and
    histogram) and [src/RoboAdvisor.py] (allocation table, expected
    return, growth projection and the script that displays them).

    Conventions of the embedding.
    - Python [int] is [Z].
    - The two functions of [RoboAdvisor.py] are given twice: over any
      number type with the operations they use ([RoboAdvisorAnyNumber],
      with binary64 and the real numbers as instances), and over the real
      numbers alone ([RoboAdvisor]), where rounding and overflow are not
      modelled and exceptions are.
    - A NumPy [float64] produced by the simulation is an exact rational in
      lowest terms, or one of the special values the division can produce;
      the one square root taken of such a value is a real number.
    - Exceptions are values of [Py.result]; the simulation also threads
      the process state it touches (Streamlit's data cache and NumPy's
      global generator), and the advisor script its session state. *)

From Stdlib Require Import ZArith QArith Qreduction Reals Lra Lia.
From Stdlib Require Floats Uint63.
From Stdlib Require Lqa.
From stdpp Require Import base option list list_numbers sorting gmap strings.

(** ** Python values, exceptions and arithmetic *)

Module Py.

Inductive exn : Type :=
| ZeroDivisionError
| KeyError (key : string)
| ValueError
| OverflowError.

(** Outcome of evaluating a Python expression or function body.
    [ComplexValued] is not an exception: Python answers a negative float
    raised to a fractional power with a [complex] number and carries on;
    the real-valued model stops following the computation there. *)
Inductive result (A : Type) : Type :=
| Ok (a : A)
| Raise (e : exn)
| ComplexValued.

Arguments Ok {A} a.
Arguments Raise {A} e.
Arguments ComplexValued {A}.

#[export] Instance result_ret : MRet result := fun _ a => Ok a.

#[export] Instance result_bind : MBind result := fun _ _ k m =>
  match m with
  | Ok a => k a
  | Raise e => Raise e
  | ComplexValued => ComplexValued
  end.

(** [for x in xs: s = body(s, x)] with exceptions leaving the loop. *)
Fixpoint for_each {A S : Type} (body : S -> A -> result S)
    (xs : list A) (s : S) : result S :=
  match xs with
  | [] => Ok s
  | x :: xs' => s' ← body s x; for_each body xs' s'
  end.

(** [d[k]] on a dict with string keys. *)
Definition getitem {V : Type} (d : gmap string V) (k : string) : result V :=
  match d !! k with
  | Some v => Ok v
  | None => Raise (KeyError k)
  end.

(** [range(a, b)] and [np.arange(n)]: empty when the bound is not above
    the start. *)
Definition range (a b : Z) : list Z := seqZ a (b - a).
Definition np_arange (n : Z) : list Z := seqZ 0 n.

Local Open Scope R_scope.

(** [x / y] on floats (and on ints, true division). *)
Definition truediv (x y : R) : result R :=
  if Req_dec_T y 0 then Raise ZeroDivisionError else Ok (x / y).

(** [x ** n] for a float [x] and an int [n]. *)
Definition pow_int (x : R) (n : Z) : result R :=
  if (0 <=? n)%Z then Ok (x ^ Z.to_nat n)
  else if Req_dec_T x 0 then Raise ZeroDivisionError
  else Ok (/ (x ^ Z.to_nat (- n))).

(** [x ** y] for floats [x] and [y]. *)
Definition pow (x y : R) : result R :=
  if Rlt_dec 0 x then Ok (Rpower x y)
  else if Req_dec_T x 0 then
    if Rlt_dec y 0 then Raise ZeroDivisionError
    else if Req_dec_T y 0 then Ok 1
    else Ok 0
  else if Req_dec_T y (IZR (Int_part y)) then Ok (powerRZ x (Int_part y))
  else ComplexValued.

End Py.

Import Py.

(** ** src/RoboAdvisor.py *)

Module RoboAdvisor.

Local Open Scope R_scope.

Definition AVG_STOCK_RETURN : R := 0.08.
Definition AVG_BOND_RETURN : R := 0.03.

Definition ALLOCATION_STRATEGY : gmap string (gmap string Z) :=
  {[ "Conservative" := {[ "Stocks" := 30%Z; "Bonds" := 70%Z ]};
     "Moderate"     := {[ "Stocks" := 60%Z; "Bonds" := 40%Z ]};
     "Aggressive"   := {[ "Stocks" := 90%Z; "Bonds" := 10%Z ]} ]}.

(** The options of the risk-tolerance radio button (line 54). *)
Definition risk_profiles : list string :=
  ["Conservative"; "Moderate"; "Aggressive"]%string.

Definition calculate_portfolio_return (risk_profile : string)
    (stock_return bond_return : R) : result R :=
  allocation ← getitem ALLOCATION_STRATEGY risk_profile;
  stocks ← getitem allocation "Stocks";
  stock_percent ← truediv (IZR stocks) 100;
  bonds ← getitem allocation "Bonds";
  bond_percent ← truediv (IZR bonds) 100;
  let expected_return :=
    (stock_percent * stock_return) + (bond_percent * bond_return) in
  Ok expected_return.

(** Body of the [for year in range(1, investment_horizon + 1)] loop; the
    loop state is [(current_value, portfolio_values)]. *)
Definition growth_step (monthly_contribution annual_return monthly_return : R)
    (st : R * list R) (year : Z) : result (R * list R) :=
  let '(current_value, portfolio_values) := st in
  let current_value := current_value * (1 + annual_return) in
  compounded ← Py.pow_int (1 + monthly_return) 12;
  annuity_factor ← truediv (compounded - 1) monthly_return;
  let fv_contributions_this_year := monthly_contribution * annuity_factor in
  let current_value := current_value + fv_contributions_this_year in
  Ok (current_value, portfolio_values ++ [current_value]).

Definition project_portfolio_growth
    (initial_savings monthly_contribution : R) (investment_horizon : Z)
    (annual_return : R) : result (list Z * list R) :=
  let years := np_arange (investment_horizon + 1) in
  let portfolio_values := [] in
  let current_value := initial_savings in
  let portfolio_values := portfolio_values ++ [current_value] in
  root ← Py.pow (1 + annual_return) (1 / 12);
  let monthly_return := root - 1 in
  '(current_value, portfolio_values) ←
    for_each (growth_step monthly_contribution annual_return monthly_return)
      (range 1 (investment_horizon + 1)) (current_value, portfolio_values);
  Ok (years, portfolio_values).

(** The (year, value) rows of the projection table built from the two
    returned columns (lines 137-140). *)
Definition projection_series (out : list Z * list R) : list (Z * R) :=
  zip out.1 out.2.

(** The (stockWeight, bondWeight) pair the table gives a profile. *)
Definition weights (risk_profile : string) : option (Z * Z) :=
  allocation ← ALLOCATION_STRATEGY !! risk_profile;
  stocks ← allocation !! "Stocks";
  bonds ← allocation !! "Bonds";
  Some (stocks, bonds).

(** *** The projection as the specification words it (section 4.2)

    Step 1, the monthly rate; step 3, one year's value from the previous
    one; steps 2 to 4, the series of (year, value) pairs. *)
Definition spec_monthly_return (annual_return : R) : R :=
  Rpower (1 + annual_return) (1 / 12) - 1.

Definition spec_next_value (monthly_contribution annual_return previous : R)
    : R :=
  let monthly_return := spec_monthly_return annual_return in
  previous * (1 + annual_return)
  + monthly_contribution * (((1 + monthly_return) ^ 12 - 1) / monthly_return).

Fixpoint spec_year_value (initial_savings monthly_contribution annual_return : R)
    (y : nat) : R :=
  match y with
  | O => initial_savings
  | S y' =>
      spec_next_value monthly_contribution annual_return
        (spec_year_value initial_savings monthly_contribution annual_return y')
  end.

Definition spec_projection (initial_savings monthly_contribution : R)
    (horizon_years : Z) (annual_return : R) : list (Z * R) :=
  map (fun y =>
         (Z.of_nat y,
          spec_year_value initial_savings monthly_contribution annual_return y))
      (seq 0 (Z.to_nat (horizon_years + 1))).

(** *** The script around the two functions (lines 41-72 and 116-195) *)

(** The values of the sidebar widgets. *)
Record widgets : Type := {
  age : Z;
  investment_horizon : Z;
  current_savings : Z;
  monthly_contribution : Z;
  risk_tolerance : string
}.

(** What the widgets can deliver: the bounds of the two sliders, the
    [min_value] of the two number inputs and the options of the radio
    button (lines 46-54). *)
Definition widgets_ok (w : widgets) : Prop :=
  (18 <= age w <= 80)%Z
  /\ (1 <= investment_horizon w <= 50)%Z
  /\ (0 <= current_savings w)%Z
  /\ (0 <= monthly_contribution w)%Z
  /\ risk_tolerance w ∈ risk_profiles.

(** Exceptions of the script: those of the two functions and the two the
    script's own lookups can raise. *)
Inductive script_exn : Type :=
| Uncaught (e : exn)
| IndexError
| AttributeError.

Inductive script (A : Type) : Type :=
| Done (a : A)
| Stopped (e : script_exn)
| ComplexValues.

Arguments Done {A} a.
Arguments Stopped {A} e.
Arguments ComplexValues {A}.

#[export] Instance script_ret : MRet script := fun _ a => Done a.

#[export] Instance script_bind : MBind script := fun _ _ k m =>
  match m with
  | Done a => k a
  | Stopped e => Stopped e
  | ComplexValues => ComplexValues
  end.

Definition call {A : Type} (r : result A) : script A :=
  match r with
  | Ok a => Done a
  | Raise e => Stopped (Uncaught e)
  | ComplexValued => ComplexValues
  end.

(** [pd.DataFrame] of two columns: they must be equally long. *)
Definition pd_DataFrame (years : list Z) (values : list R)
    : script (list (Z * R)) :=
  if decide (length years = length values)
  then Done (projection_series (years, values))
  else Stopped (Uncaught ValueError).

(** [values[-1]]. *)
Definition last_item (values : list R) : script R :=
  match last values with
  | Some v => Done v
  | None => Stopped IndexError
  end.

(** [max(0, x)]. *)
Definition max_0 (x : R) : R := if Rlt_dec 0 x then x else 0.

(** Which of the three recommendation texts is written (lines 175-192). *)
Inductive recommendations : Type :=
| ConservativeText
| ModerateText
| AggressiveText.

Definition general_recommendations (risk_tolerance : string)
    : recommendations :=
  if decide (risk_tolerance = "Conservative"%string) then ConservativeText
  else if decide (risk_tolerance = "Moderate"%string) then ModerateText
  else AggressiveText.

(** What the page shows after a calculation. *)
Record plan : Type := {
  shown_stocks : Z;
  shown_bonds : Z;
  expected_portfolio_return : R;
  df_projection : list (Z * R);
  final_projected_value : R;
  total_contributed : Z;
  total_gains : R;
  shown_gains : R;
  shown_recommendations : recommendations
}.

(** The branch taken when the calculation was requested (lines 118-193). *)
Definition main_logic (w : widgets) : script plan :=
  selected_allocation ← call (getitem ALLOCATION_STRATEGY (risk_tolerance w));
  stocks ← call (getitem selected_allocation "Stocks");
  bonds ← call (getitem selected_allocation "Bonds");
  expected ← call (calculate_portfolio_return (risk_tolerance w)
                     AVG_STOCK_RETURN AVG_BOND_RETURN);
  '(years, projected_values) ←
    call (project_portfolio_growth (IZR (current_savings w))
            (IZR (monthly_contribution w)) (investment_horizon w) expected);
  df ← pd_DataFrame years projected_values;
  final ← last_item projected_values;
  let contributed :=
    (current_savings w
     + monthly_contribution w * 12 * investment_horizon w)%Z in
  let gains := final - IZR contributed in
  Done {| shown_stocks := stocks;
          shown_bonds := bonds;
          expected_portfolio_return := expected;
          df_projection := df;
          final_projected_value := final;
          total_contributed := contributed;
          total_gains := gains;
          shown_gains := max_0 gains;
          shown_recommendations :=
            general_recommendations (risk_tolerance w) |}.

(** [st.session_state], as far as the script uses it: the attributes that
    are set, with their values. *)
Definition run_calculation : string := "run_calculation".

(** The button of the sidebar and the initialisation of the flag
    (lines 63-68). *)
Definition sidebar_button (clicked : bool) (session_state : gmap string bool)
    : gmap string bool :=
  if clicked then <[run_calculation := true]> session_state
  else
    match session_state !! run_calculation with
    | None => <[run_calculation := false]> session_state
    | Some _ => session_state
    end.

(** What one run of the script shows below the title. *)
Inductive page : Type :=
| PlanSummary (p : plan)
| FillInProfile.

(** One run of the script: the sidebar, then the branch on the flag
    (line 117). *)
Definition rerun (clicked : bool) (w : widgets)
    (session_state : gmap string bool) : gmap string bool * script page :=
  let session_state := sidebar_button clicked session_state in
  (session_state,
   match session_state !! run_calculation with
   | None => Stopped AttributeError
   | Some true => p ← main_logic w; Done (PlanSummary p)
   | Some false => Done FillInProfile
   end).

(** The session after a series of runs, given whether the button was
    clicked in each. *)
Definition session_after (clicks : list (bool * widgets))
    (session_state : gmap string bool) : gmap string bool :=
  foldl (fun ss cw => (rerun cw.1 cw.2 ss).1) session_state clicks.

End RoboAdvisor.

(** ** The two functions over any kind of Python number

    Neither function of [RoboAdvisor.py] names a number type: each works
    on whatever its arguments are, through [+], [-], [*], [/] and [**].
    The interface below is those operations; the functions are written
    once over it. The application runs them on [float], that is on
    binary64, whose operations round; the real numbers are the instance
    in which they do not. *)

Module Numbers.

(** The arithmetic the functions use. [int_truediv a b] is the number
    [a / b] of two ints gives; [is_zero y] is what [x / y] tests before
    it divides. *)
Class Arith (T : Type) : Type := {
  of_int : Z -> T;
  int_truediv : Z -> Z -> T;
  add : T -> T -> T;
  sub : T -> T -> T;
  mul : T -> T -> T;
  div : T -> T -> T;
  is_zero : T -> bool
}.

(** [x ** y] for a number exponent and for an int exponent; either can
    raise ([OverflowError], or [ZeroDivisionError] at a zero base), and a
    negative float base with a fractional exponent leaves the floats. *)
Class Power (T : Type) `{Arith T} : Type := {
  pow : T -> T -> result T;
  pow_int : T -> Z -> result T
}.

(** [x / y] on numbers. *)
Definition truediv {T : Type} `{Arith T} (x y : T) : result T :=
  if is_zero y then Raise ZeroDivisionError else Ok (div x y).

(** [a / b] on ints. *)
Definition int_div {T : Type} `{Arith T} (a b : Z) : result T :=
  if (b =? 0)%Z then Raise ZeroDivisionError else Ok (int_truediv a b).

(** *** binary64, the [float] of the application *)

Import PrimFloat.

Definition float_of_Z (z : Z) : float :=
  match z with
  | Z0 => 0%float
  | Zpos p => PrimFloat.of_uint63 (Uint63.of_Z (Zpos p))
  | Zneg p => (- PrimFloat.of_uint63 (Uint63.of_Z (Zpos p)))%float
  end.

#[export] Instance binary64 : Arith float := {
  of_int := float_of_Z;
  int_truediv a b := (float_of_Z a / float_of_Z b)%float;
  add := PrimFloat.add;
  sub := PrimFloat.sub;
  mul := PrimFloat.mul;
  div := PrimFloat.div;
  is_zero y := PrimFloat.eqb y 0%float
}.

(** The floats of the two literals [0.08] and [0.03] (lines 29-30), and
    the float next above [1.0], which Python prints as
    [1.0000000000000002]. *)
Definition float_0_08 : float := 0x1.47ae147ae147bp-4%float.
Definition float_0_03 : float := 0x1.eb851eb851eb8p-6%float.
Definition float_1 : float := 1%float.
Definition float_above_1 : float := 0x1.0000000000001p0%float.

(** [**] on floats, given what Python's [float ** float] does;
    [float ** int] converts the int first. *)
Definition python_float_power (float_pow : float -> float -> result float)
    : Power float := {|
  pow := float_pow;
  pow_int x n := float_pow x (float_of_Z n)
|}.

(** The float of the literal [1e-16]. *)
Definition float_1e_16 : float := 0x1.cd2b297d889bcp-54%float.

(** *** The real numbers: the same operations without rounding *)

#[export] Instance exact : Arith R := {
  of_int := IZR;
  int_truediv a b := (IZR a / IZR b)%R;
  add := Rplus;
  sub := Rminus;
  mul := Rmult;
  div := Rdiv;
  is_zero y := if Req_dec_T y 0%R then true else false
}.

#[export] Instance exact_power : Power R := {
  pow := Py.pow;
  pow_int := Py.pow_int
}.

End Numbers.

Module RoboAdvisorAnyNumber.

Import Numbers RoboAdvisor.

Section Functions.
Context {T : Type} `{Power T}.

Definition calculate_portfolio_return (risk_profile : string)
    (stock_return bond_return : T) : result T :=
  allocation ← getitem ALLOCATION_STRATEGY risk_profile;
  stocks ← getitem allocation "Stocks";
  stock_percent ← int_div stocks 100;
  bonds ← getitem allocation "Bonds";
  bond_percent ← int_div bonds 100;
  let expected_return :=
    add (mul stock_percent stock_return) (mul bond_percent bond_return) in
  Ok expected_return.

Definition growth_step (monthly_contribution annual_return monthly_return : T)
    (st : T * list T) (year : Z) : result (T * list T) :=
  let '(current_value, portfolio_values) := st in
  let current_value := mul current_value (add (of_int 1) annual_return) in
  compounded ← pow_int (add (of_int 1) monthly_return) 12;
  annuity_factor ← truediv (sub compounded (of_int 1)) monthly_return;
  let fv_contributions_this_year := mul monthly_contribution annuity_factor in
  let current_value := add current_value fv_contributions_this_year in
  Ok (current_value, portfolio_values ++ [current_value]).

Definition project_portfolio_growth
    (initial_savings monthly_contribution : T) (investment_horizon : Z)
    (annual_return : T) : result (list Z * list T) :=
  let years := np_arange (investment_horizon + 1) in
  let portfolio_values := [] in
  let current_value := initial_savings in
  let portfolio_values := portfolio_values ++ [current_value] in
  twelfth ← int_div 1 12;
  root ← pow (add (of_int 1) annual_return) twelfth;
  let monthly_return := sub root (of_int 1) in
  '(current_value, portfolio_values) ←
    for_each (growth_step monthly_contribution annual_return monthly_return)
      (range 1 (investment_horizon + 1)) (current_value, portfolio_values);
  Ok (years, portfolio_values).

End Functions.

End RoboAdvisorAnyNumber.

(** ** src/LawOfLargeNumbers.py *)

Module LawOfLargeNumbers.

(** A [float64] cell of the returned array. [Finite q] keeps [q] in lowest
    terms, so equal cells are equal terms. *)
Inductive float64 : Type :=
| Finite (q : Q)
| NaN
| PosInf
| NegInf.

(** NumPy's global generator, as far as [randint(0, 2)] sees it: the fair
    coin outcomes it is going to deliver ([bits]) and how many have been
    consumed ([pos]). Seeding the generator fixes [bits]. *)
Record generator : Type := { bits : nat -> bool; pos : nat }.

(** What a call of [run_simulation] can read and change in the process:
    the entries of [st.cache_data], keyed by the call's arguments, and the
    global generator. *)
Record process : Type := {
  cache : gmap (Z * Z) (list float64);
  np_random : generator
}.

(** Computations that may raise and that run in a process. *)
Definition sim (A : Type) : Type := process -> result A * process.

#[export] Instance sim_ret : MRet sim := fun _ a p => (Ok a, p).

#[export] Instance sim_bind : MBind sim := fun _ _ k m p =>
  match m p with
  | (Ok a, p') => k a p'
  | (Raise e, p') => (Raise e, p')
  | (ComplexValued, p') => (ComplexValued, p')
  end.

Definition raise {A : Type} (e : exn) : sim A := fun p => (Raise e, p).

(** One draw of [randint(0, 2)]. *)
Definition next_bit (g : generator) : Z * generator :=
  ((if bits g (pos g) then 1 else 0)%Z,
   {| bits := bits g; pos := S (pos g) |}).

Fixpoint draw_row (cols : nat) (g : generator) : list Z * generator :=
  match cols with
  | O => ([], g)
  | S cols' =>
      let '(b, g1) := next_bit g in
      let '(row, g2) := draw_row cols' g1 in
      (b :: row, g2)
  end.

Fixpoint draw_rows (rows cols : nat) (g : generator)
    : list (list Z) * generator :=
  match rows with
  | O => ([], g)
  | S rows' =>
      let '(row, g1) := draw_row cols g in
      let '(rest, g2) := draw_rows rows' cols g1 in
      (row :: rest, g2)
  end.

(** [np.random.randint(0, 2, size=(rows, cols))]: the shape is checked
    first (a negative dimension is a [ValueError]), then the cells are
    drawn row by row. *)
Definition np_random_randint_0_2 (size : Z * Z) : sim (list (list Z)) :=
  fun p =>
    let '(rows, cols) := size in
    if ((rows <? 0) || (cols <? 0))%Z then raise ValueError p
    else
      let '(m, g') :=
        draw_rows (Z.to_nat rows) (Z.to_nat cols) (np_random p) in
      (Ok m, {| cache := cache p; np_random := g' |}).

(** [np.sum(results, axis=1)]. *)
Definition np_sum_axis1 (results : list (list Z)) : list Z :=
  map (fun row => foldr Z.add 0%Z row) results.

(** One cell of [int_array / n]: NumPy warns and does not raise on a zero
    divisor. *)
Definition np_true_divide (a n : Z) : float64 :=
  if (n =? 0)%Z then
    if (a =? 0)%Z then NaN else if (0 <? a)%Z then PosInf else NegInf
  else Finite (Qred (inject_Z a / inject_Z n)).

(** The undecorated function body (lines 50-64). *)
Definition run_simulation_body (n_flips n_sims : Z) : sim (list float64) :=
  results ← np_random_randint_0_2 (n_sims, n_flips);
  let heads_counts := np_sum_axis1 results in
  let proportions_of_heads :=
    map (fun c => np_true_divide c n_flips) heads_counts in
  mret proportions_of_heads.

(** [@st.cache_data] (line 49): a call whose arguments have an entry
    returns the stored value without running the body; otherwise the body
    runs and a value it returns is stored. An exception is not stored. *)
Definition st_cache_data (f : Z -> Z -> sim (list float64))
    : Z -> Z -> sim (list float64) :=
  fun a b p =>
    match cache p !! (a, b) with
    | Some v => (Ok v, p)
    | None =>
        match f a b p with
        | (Ok v, p') =>
            (Ok v, {| cache := <[(a, b) := v]> (cache p');
                      np_random := np_random p' |})
        | other => other
        end
    end.

Definition run_simulation : Z -> Z -> sim (list float64) :=
  st_cache_data run_simulation_body.

(** A process that has just started: nothing cached yet. *)
Definition fresh (g : generator) : process :=
  {| cache := ∅; np_random := g |}.

(** [after p q]: the process gets from [p] to [q] by calls of
    [run_simulation] (one per rerun of the script). *)
Inductive after (p : process) : process -> Prop :=
| after_now : after p p
| after_call q n_flips n_sims :
    after p q -> after p (run_simulation n_flips n_sims q).2.

(** The processes the program can be in. *)
Definition reachable (p : process) : Prop := exists g, after (fresh g) p.

(** Number of heads in a row of flips. *)
Definition heads_count (row : list Z) : Z :=
  Z.of_nat (count_occ Z.eq_dec row 1%Z).

(** A [rows] by [cols] table of coin flips, 0 for tails and 1 for heads. *)
Definition coin_table (rows cols : nat) (t : list (list Z)) : Prop :=
  length t = rows
  /\ Forall (fun row => length row = cols
                        /\ Forall (fun b => b = 0%Z \/ b = 1%Z) row) t.

(** Two generators for examples: one that only delivers heads, one that
    only delivers tails. *)
Definition all_heads : generator := {| bits := fun _ => true; pos := 0 |}.
Definition all_tails : generator := {| bits := fun _ => false; pos := 0 |}.

(** Membership of the closed unit interval. *)
Definition in_unit_interval (x : float64) : Prop :=
  match x with
  | Finite q => (0 <= q /\ q <= 1)%Q
  | _ => False
  end.

(** What the cache holds at any time: under a key, a value the function
    body returned for those arguments. *)
Definition cache_sound (p : process) : Prop :=
  forall n_flips n_sims l,
    cache p !! (n_flips, n_sims) = Some l ->
    exists p0, (run_simulation_body n_flips n_sims p0).1 = Ok l.

(** *** The statistics and the histogram of the page (lines 21-40, 66-89) *)

#[export] Instance Q_eq_dec : EqDecision Q.
Proof. solve_decision. Defined.

#[export] Instance float64_eq_dec : EqDecision float64.
Proof. solve_decision. Defined.

(** [x + y] on [float64]. *)
Definition float64_add (x y : float64) : float64 :=
  match x, y with
  | NaN, _ | _, NaN => NaN
  | PosInf, NegInf | NegInf, PosInf => NaN
  | PosInf, _ | _, PosInf => PosInf
  | NegInf, _ | _, NegInf => NegInf
  | Finite a, Finite b => Finite (Qred (a + b))
  end.

(** [x / n] for a count [n] of cells. *)
Definition float64_div_count (x : float64) (n : nat) : float64 :=
  match x with
  | Finite a =>
      match n with
      | O =>
          match Qnum a with
          | Z0 => NaN
          | Zpos _ => PosInf
          | Zneg _ => NegInf
          end
      | S _ => Finite (Qred (a / inject_Z (Z.of_nat n)))
      end
  | other => other
  end.

(** [np.sum(x)] of a one-dimensional array. *)
Definition np_sum (x : list float64) : float64 :=
  foldr float64_add (Finite 0) x.

(** [np.mean(x)]: the sum divided by the number of cells; not-a-number
    for an empty array. *)
Definition np_mean (x : list float64) : float64 :=
  float64_div_count (np_sum x) (length x).

(** [x - y] on [float64]. *)
Definition float64_sub (x y : float64) : float64 :=
  match x, y with
  | NaN, _ | _, NaN => NaN
  | PosInf, PosInf | NegInf, NegInf => NaN
  | PosInf, _ | _, NegInf => PosInf
  | NegInf, _ | _, PosInf => NegInf
  | Finite a, Finite b => Finite (Qred (a - b))
  end.

(** [x * x] on [float64]. *)
Definition float64_square (x : float64) : float64 :=
  match x with
  | Finite a => Finite (Qred (a * a))
  | NaN => NaN
  | PosInf | NegInf => PosInf
  end.

(** The population variance NumPy takes the root of: the mean of the
    squared deviations from the mean. *)
Definition np_var (x : list float64) : float64 :=
  let arrmean := np_mean x in
  np_mean (map (fun c => float64_square (float64_sub c arrmean)) x).

(** A [float64] that need not be rational: the result of a square root,
    read as a real number. *)
Inductive real64 : Type :=
| Exactly (r : R)
| NotANumber
| Infinity.

(** [np.sqrt(v)]. *)
Definition np_sqrt (v : float64) : real64 :=
  match v with
  | Finite a =>
      if Qlt_le_dec a 0 then NotANumber else Exactly (sqrt (Q2R a))
  | PosInf => Infinity
  | NaN | NegInf => NotANumber
  end.

(** [np.std(x)]. *)
Definition np_std (x : list float64) : real64 := np_sqrt (np_var x).

(** Sum of a list of rationals. *)
Definition Qsum (qs : list Q) : Q := foldr Qplus 0%Q qs.

(** The order NumPy sorts by: not-a-number last. *)
Definition float64_le (x y : float64) : Prop :=
  match x, y with
  | _, NaN => True
  | NaN, _ => False
  | NegInf, _ => True
  | _, NegInf => False
  | _, PosInf => True
  | PosInf, _ => False
  | Finite a, Finite b => (a <= b)%Q
  end.

#[export] Instance float64_le_dec (x y : float64) : Decision (float64_le x y).
Proof.
  unfold Decision.
  destruct x as [a| | |], y as [b| | |]; simpl.
  1: destruct (Qlt_le_dec b a) as [H|H];
       [right; intros H'; exact (Qlt_not_le _ _ H H') | left; exact H].
  all: first [left; exact I | right; exact (fun H : False => H)].
Defined.

(** [np.unique(x)]: the distinct cells, sorted (not-a-number counted
    once, as NumPy does since 1.21). *)
Definition np_unique (x : list float64) : list float64 :=
  merge_sort float64_le (remove_dups x).

(** The values of the two sliders. *)
Record sliders : Type := {
  num_flips_per_sim : Z;
  num_simulations : Z
}.

(** What the sliders can deliver (lines 24-40). *)
Definition sliders_ok (s : sliders) : Prop :=
  (1 <= num_flips_per_sim s <= 1000)%Z
  /\ (10 <= num_simulations s <= 5000)%Z
  /\ (num_simulations s mod 10 = 0)%Z.

(** What one run of the script shows: the three metrics and the number
    of bins asked of the histogram. *)
Record page : Type := {
  proportions : list float64;
  average_proportion : float64;
  standard_deviation : real64;
  unique_proportions : nat;
  nbinsx : Z
}.

(** One run of the script (lines 66-89). *)
Definition script (s : sliders) : sim page :=
  proportions ←
    run_simulation (num_flips_per_sim s) (num_simulations s);
  mret {| proportions := proportions;
          average_proportion := np_mean proportions;
          standard_deviation := np_std proportions;
          unique_proportions := length (np_unique proportions);
          nbinsx := Z.min 50 (num_flips_per_sim s + 1) |}.

(** The cell of the returned array for one row of flips. *)
Definition proportion (n_flips : Z) (row : list Z) : float64 :=
  Finite (Qred (inject_Z (heads_count row) / inject_Z n_flips)).

(** Number of heads in a whole table of flips. *)
Definition total_heads (t : list (list Z)) : Z :=
  foldr Z.add 0%Z (map heads_count t).

(** The generator that delivers tails where [g] delivers heads and heads
    where [g] delivers tails. *)
Definition complement (g : generator) : generator :=
  {| bits := fun i => negb (bits g i); pos := pos g |}.

End LawOfLargeNumbers.

(** * Proofs *)

(** ** Evaluation of the arithmetic primitives *)

Module PyFacts.

Local Open Scope R_scope.

Lemma truediv_nonzero (x y : R) : y <> 0 -> truediv x y = Ok (x / y).
Proof.
  intros Hy. unfold truediv.
  destruct (Req_dec_T y 0); [contradiction | reflexivity].
Qed.

Lemma truediv_zero (x : R) : truediv x 0 = Raise ZeroDivisionError.
Proof.
  unfold truediv. destruct (Req_dec_T 0 0); [reflexivity | contradiction].
Qed.

Lemma truediv_percent (x : R) : truediv x 100 = Ok (x / 100).
Proof. apply truediv_nonzero. lra. Qed.

Lemma pow_positive (x y : R) : 0 < x -> Py.pow x y = Ok (Rpower x y).
Proof.
  intros Hx. unfold Py.pow.
  destruct (Rlt_dec 0 x); [reflexivity | contradiction].
Qed.

Lemma pow_int_12 (x : R) : pow_int x 12 = Ok (x ^ 12).
Proof. reflexivity. Qed.

Lemma Rpower_base_1 (y : R) : Rpower 1 y = 1.
Proof. unfold Rpower. rewrite ln_1, Rmult_0_r. apply exp_0. Qed.

Lemma twelfth_root_pow (x : R) : 0 < x -> Rpower x (1 / 12) ^ 12 = x.
Proof.
  intros Hx. rewrite <- Rpower_pow by apply exp_pos.
  rewrite Rpower_mult.
  replace (1 / 12 * INR 12) with 1 by (simpl; lra).
  now apply Rpower_1.
Qed.

Lemma twelfth_root_is_1 (x : R) : 0 < x -> Rpower x (1 / 12) = 1 -> x = 1.
Proof.
  intros Hx H. rewrite <- (twelfth_root_pow x Hx), H. apply pow1.
Qed.

Lemma twelfth_root_above_1 (x : R) : 1 < x -> 1 < Rpower x (1 / 12).
Proof.
  intros Hx. pose proof (Rpower_lt x 0 (1 / 12) Hx ltac:(lra)) as H.
  rewrite Rpower_O in H by lra. exact H.
Qed.

Lemma zip_map_same {A B C : Type} (f : A -> B) (g : A -> C) (l : list A) :
  zip (map f l) (map g l) = map (fun a => (f a, g a)) l.
Proof. induction l as [|a l IH]; simpl; [reflexivity | now rewrite IH]. Qed.

Lemma np_arange_nat (n : Z) : np_arange n = map Z.of_nat (seq 0 (Z.to_nat n)).
Proof. unfold np_arange, seqZ. apply map_ext. intros i. lia. Qed.

Lemma length_range_1 (h : Z) : length (range 1 (h + 1)) = Z.to_nat h.
Proof. unfold range. rewrite length_seqZ. f_equal. lia. Qed.

End PyFacts.

(** ** The allocation table and the expected return *)

Module RoboAdvisorProofs.

Import PyFacts RoboAdvisor.
Local Open Scope R_scope.

Lemma weights_table :
  weights "Conservative" = Some (30, 70)%Z
  /\ weights "Moderate" = Some (60, 40)%Z
  /\ weights "Aggressive" = Some (90, 10)%Z.
Proof. repeat split. Qed.

(** The table has an entry for the three profiles of the radio button and
    for nothing else. *)
Lemma allocation_table_keys (p : string) :
  is_Some (ALLOCATION_STRATEGY !! p) <-> p ∈ risk_profiles.
Proof.
  unfold ALLOCATION_STRATEGY, risk_profiles.
  rewrite !lookup_insert_is_Some, lookup_singleton_is_Some.
  rewrite !elem_of_cons, elem_of_nil.
  destruct (decide (p = "Conservative"%string)) as [->|];
    [intuition congruence|].
  destruct (decide (p = "Moderate"%string)) as [->|];
    [intuition congruence|].
  intuition congruence.
Qed.

Lemma risk_profiles_cases (P : string -> Prop) :
  P "Conservative"%string -> P "Moderate"%string -> P "Aggressive"%string ->
  forall p, p ∈ risk_profiles -> P p.
Proof.
  intros Hc Hm Ha p Hp. apply list_elem_of_In in Hp. simpl in Hp.
  destruct Hp as [<- | [<- | [<- | []]]]; assumption.
Qed.

Lemma calculate_portfolio_return_of_weights p sw bw s b :
  weights p = Some (sw, bw) ->
  calculate_portfolio_return p s b = Ok (IZR sw / 100 * s + IZR bw / 100 * b).
Proof.
  unfold weights, calculate_portfolio_return, getitem.
  destruct (ALLOCATION_STRATEGY !! p) as [alloc|]; [|discriminate].
  cbn [mbind option_bind result_bind].
  destruct (alloc !! "Stocks"%string) as [st|]; [|discriminate].
  cbn [mbind option_bind result_bind]. rewrite truediv_percent.
  destruct (alloc !! "Bonds"%string) as [bo|]; [|discriminate].
  cbn [mbind option_bind result_bind]. rewrite truediv_percent.
  intros [= <- <-]. reflexivity.
Qed.

(** An unknown profile is a [KeyError], as for any dict. *)
Lemma calculate_portfolio_return_unknown p s b :
  p ∉ risk_profiles ->
  calculate_portfolio_return p s b = Raise (KeyError p).
Proof.
  intros Hp. unfold calculate_portfolio_return, getitem.
  destruct (ALLOCATION_STRATEGY !! p) as [alloc|] eqn:E; [|reflexivity].
  exfalso. apply Hp, allocation_table_keys. now exists alloc.
Qed.

(** C5, as the code has it: for each of the three profiles and all stock
    and bond returns, [calculate_portfolio_return] returns
    stockWeight/100 * stockReturn + bondWeight/100 * bondReturn with the
    weights the table gives the profile; for "Conservative", 0.08 and 0.03
    this is 0.30*0.08 + 0.70*0.03 = 0.045. *)
Theorem calculate_portfolio_return_weighted_sum (p : string) (s b : R) :
  p ∈ risk_profiles ->
  (exists sw bw,
     weights p = Some (sw, bw)
     /\ calculate_portfolio_return p s b
        = Ok (IZR sw / 100 * s + IZR bw / 100 * b))
  /\ calculate_portfolio_return "Conservative" 0.08 0.03
     = Ok (0.30 * 0.08 + 0.70 * 0.03)
  /\ 0.30 * 0.08 + 0.70 * 0.03 = 0.045.
Proof.
  intros Hp. split; [|split].
  - revert p Hp. apply risk_profiles_cases; eexists _, _;
      (split; [reflexivity | now apply calculate_portfolio_return_of_weights]).
  - rewrite (calculate_portfolio_return_of_weights _ 30 70) by reflexivity.
    apply f_equal. lra.
  - lra.
Qed.

Lemma calculate_portfolio_return_weighted_sum_witness :
  calculate_portfolio_return "Moderate" 0.08 0.03 = Ok 0.06.
Proof.
  destruct (calculate_portfolio_return_weighted_sum "Moderate" 0.08 0.03)
    as [(sw & bw & Hw & ->) _].
  - apply list_elem_of_In. simpl. tauto.
  - change (weights "Moderate") with (Some (60, 40)%Z) in Hw.
    injection Hw as <- <-. apply f_equal. lra.
Defined.

(** C5 as the specification states it fails: the value for
    "Conservative", 0.08 and 0.03 is not 0.051. *)
Lemma conservative_return_is_not_0_051 :
  calculate_portfolio_return "Conservative" 0.08 0.03 <> Ok 0.051.
Proof.
  rewrite (calculate_portfolio_return_of_weights _ 30 70) by reflexivity.
  intros [= H]. lra.
Qed.

(** C8: for each of the three risk profiles the stock weight and the bond
    weight of the table sum to exactly 100. *)
Theorem allocation_weights_sum_to_100 (p : string) :
  p ∈ risk_profiles ->
  exists sw bw, weights p = Some (sw, bw) /\ (sw + bw = 100)%Z.
Proof.
  revert p. apply risk_profiles_cases; eexists _, _; (split; reflexivity).
Qed.

Lemma allocation_weights_sum_to_100_witness :
  exists sw bw, weights "Aggressive" = Some (sw, bw) /\ (sw + bw = 100)%Z.
Proof.
  apply (allocation_weights_sum_to_100 "Aggressive").
  apply list_elem_of_In. simpl. tauto.
Defined.

End RoboAdvisorProofs.

(** ** The growth projection *)

Module ProjectionProofs.

Import PyFacts RoboAdvisor.
Local Open Scope R_scope.

Section Loop.
Variables (c r : R).
Hypothesis r_above : -1 < r.
Hypothesis r_nonzero : r <> 0.

Let m := spec_monthly_return r.

Lemma monthly_return_nonzero : m <> 0.
Proof.
  unfold m, spec_monthly_return. intros H. apply r_nonzero.
  assert (1 + r = 1) by (apply twelfth_root_is_1; lra). lra.
Qed.

(** One iteration appends the next value of the recurrence. *)
Lemma growth_step_ok v vs year :
  growth_step c r m (v, vs) year
  = Ok (spec_next_value c r v, vs ++ [spec_next_value c r v]).
Proof.
  unfold growth_step. rewrite pow_int_12. cbn [mbind result_bind].
  rewrite truediv_nonzero by apply monthly_return_nonzero.
  reflexivity.
Qed.

Lemma spec_year_value_shift v y :
  spec_year_value (spec_next_value c r v) c r y
  = spec_year_value v c r (S y).
Proof. induction y as [|y IH]; simpl; [reflexivity | now rewrite IH]. Qed.

(** The whole loop, whatever the years iterated over. *)
Lemma for_each_growth_step (ys : list Z) : forall v vs,
  for_each (growth_step c r m) ys (v, vs)
  = Ok (spec_year_value v c r (length ys),
        vs ++ map (spec_year_value v c r) (seq 1 (length ys))).
Proof.
  induction ys as [|y ys IH]; intros v vs.
  - simpl. now rewrite app_nil_r.
  - cbn [for_each]. rewrite growth_step_ok. cbn [mbind result_bind].
    rewrite IH. rewrite spec_year_value_shift. f_equal. f_equal.
    cbn [length seq map]. rewrite <- app_assoc. f_equal. cbn [app]. f_equal.
    rewrite <- (seq_shift (length ys) 1), map_map.
    apply map_ext. intros k. apply spec_year_value_shift.
Qed.
End Loop.

(** Over the real numbers: for a return above -100% and different from
    zero the function
    returns, and this is what it returns. *)
Lemma project_portfolio_growth_ok init c h r :
  -1 < r -> r <> 0 ->
  project_portfolio_growth init c h r
  = Ok (np_arange (h + 1),
        map (spec_year_value init c r) (seq 0 (S (Z.to_nat h)))).
Proof.
  intros Hr1 Hr0. unfold project_portfolio_growth.
  rewrite pow_positive by lra. cbn [mbind result_bind].
  change (Rpower (1 + r) (1 / 12) - 1) with (spec_monthly_return r).
  rewrite for_each_growth_step by assumption.
  cbn [mbind result_bind]. rewrite length_range_1. reflexivity.
Qed.

Lemma projection_series_ok init c h r :
  projection_series
    (np_arange (h + 1),
     map (spec_year_value init c r) (seq 0 (S (Z.to_nat h))))
  = spec_projection init c h r.
Proof.
  unfold projection_series, spec_projection. cbn [fst snd].
  rewrite np_arange_nat.
  destruct (Z_lt_le_dec h 0) as [Hneg | Hpos].
  - replace (Z.to_nat (h + 1)) with O by lia. reflexivity.
  - replace (S (Z.to_nat h)) with (Z.to_nat (h + 1)) by lia.
    apply zip_map_same.
Qed.

Lemma lookup_map_seq_0 {A : Type} (f : nat -> A) (n y : nat) :
  (y < n)%nat -> map f (seq 0 n) !! y = Some (f y).
Proof.
  intros Hy. rewrite list_lookup_fmap, lookup_seq_lt by assumption.
  reflexivity.
Qed.

(** With a zero annual return the monthly return is zero and the first
    iteration of the loop divides by it. *)
Lemma zero_return_raises init c h :
  (1 <= h)%Z ->
  project_portfolio_growth init c h 0 = Raise ZeroDivisionError.
Proof.
  intros Hh. unfold project_portfolio_growth.
  rewrite pow_positive by lra. cbn [mbind result_bind].
  replace (1 + 0) with 1 by lra. rewrite Rpower_base_1.
  unfold range. rewrite seqZ_cons by lia. cbn [for_each].
  unfold growth_step. rewrite pow_int_12. cbn [mbind result_bind].
  replace (1 - 1) with 0 by lra. rewrite truediv_zero. reflexivity.
Qed.

(** C1, the code at the input of the specification's test: the call
    [project_portfolio_growth(0, 100, 1, 0.0)] does not return
    [[(0, 0.0), (1, 1200.0)]]; it raises [ZeroDivisionError]. *)
Theorem zero_return_contribution_path_raises :
  project_portfolio_growth 0 100 1 0 = Raise ZeroDivisionError.
Proof. apply zero_return_raises. lia. Qed.

(** C4, the code at a valid input with a zero return: no sequence of
    length [horizonYears + 1] comes back from
    [project_portfolio_growth(10000, 0, 1, 0.0)]; the call raises. *)
Theorem zero_return_no_series :
  project_portfolio_growth 10000 0 1 0 = Raise ZeroDivisionError.
Proof. apply zero_return_raises. lia. Qed.

(** Over the real numbers, where the function returns, the series has
    the claimed shape. *)
Lemma project_portfolio_growth_shape init c h r :
  (1 <= h)%Z -> -1 < r -> r <> 0 ->
  exists years values,
    project_portfolio_growth init c h r = Ok (years, values)
    /\ length values = Z.to_nat (h + 1)
    /\ length (projection_series (years, values)) = Z.to_nat (h + 1)
    /\ head (projection_series (years, values)) = Some (0%Z, init).
Proof.
  intros Hh Hr1 Hr0. eexists _, _.
  split; [now apply project_portfolio_growth_ok|].
  split; [rewrite length_map, length_seq; lia|].
  rewrite projection_series_ok. unfold spec_projection.
  split; [now rewrite length_map, length_seq|].
  replace (Z.to_nat (h + 1)) with (S (Z.to_nat h)) by lia. reflexivity.
Qed.

Section Monotone.
Variables (init c r : R).
Hypothesis init_nonneg : 0 <= init.
Hypothesis c_nonneg : 0 <= c.
Hypothesis r_pos : 0 < r.

Lemma annuity_nonneg :
  0 <= c * (((1 + spec_monthly_return r) ^ 12 - 1) / spec_monthly_return r).
Proof.
  unfold spec_monthly_return.
  replace (1 + (Rpower (1 + r) (1 / 12) - 1))
    with (Rpower (1 + r) (1 / 12)) by lra.
  rewrite twelfth_root_pow by lra.
  pose proof (twelfth_root_above_1 (1 + r) ltac:(lra)) as Hm.
  apply Rmult_le_pos; [assumption|].
  apply Rlt_le, Rdiv_lt_0_compat; lra.
Qed.

Lemma spec_year_value_nonneg y : 0 <= spec_year_value init c r y.
Proof.
  induction y as [|y IH]; simpl; [assumption|].
  unfold spec_next_value. pose proof annuity_nonneg.
  assert (0 <= spec_year_value init c r y * (1 + r))
    by (apply Rmult_le_pos; lra).
  lra.
Qed.

Lemma spec_year_value_step y :
  spec_year_value init c r y <= spec_year_value init c r (S y).
Proof.
  simpl. unfold spec_next_value. pose proof annuity_nonneg.
  pose proof (spec_year_value_nonneg y).
  assert (0 <= spec_year_value init c r y * r)
    by (apply Rmult_le_pos; lra).
  lra.
Qed.
End Monotone.

(** Over the real numbers, with a positive return the returned values
    never decrease. *)
Lemma project_portfolio_growth_nondecreasing init c h r :
  0 <= init -> 0 <= c -> 0 < r ->
  exists years values,
    project_portfolio_growth init c h r = Ok (years, values)
    /\ forall (y : nat) (v w : R),
         values !! y = Some v -> values !! S y = Some w -> v <= w.
Proof.
  intros Hi Hc Hr. eexists _, _. split.
  - apply project_portfolio_growth_ok; lra.
  - intros y v w Hv Hw.
    rewrite list_lookup_fmap in Hv, Hw.
    destruct (seq 0 (S (Z.to_nat h)) !! y) as [k|] eqn:Ek; [|discriminate].
    destruct (seq 0 (S (Z.to_nat h)) !! S y) as [k'|] eqn:Ek'; [|discriminate].
    apply lookup_seq in Ek as [-> _]. apply lookup_seq in Ek' as [-> _].
    simpl in Hv, Hw. injection Hv as <-. injection Hw as <-.
    apply (spec_year_value_step init c r Hi Hc Hr y).
Qed.

(** C7, the code at the boundary the claim includes (annualReturn = 0):
    with non-negative savings and contributions and a horizon of 20 years
    no non-decreasing sequence comes back; the call raises. *)
Theorem zero_return_no_monotone_series :
  project_portfolio_growth 10000 200 20 0 = Raise ZeroDivisionError.
Proof. apply zero_return_raises. lia. Qed.

End ProjectionProofs.

(** ** The two functions over any kind of number *)

Module AnyNumberProofs.

Import PyFacts Numbers RoboAdvisor RoboAdvisorProofs RoboAdvisorAnyNumber.
Local Open Scope R_scope.

Section AnyLoop.
Context {T : Type} `{Power T}.
Variables (c r m compounded : T).
Hypothesis compounded_ok : pow_int (add (of_int 1) m) 12 = Ok compounded.

Let next (v : T) : T :=
  add (mul v (add (of_int 1) r))
      (mul c (div (sub compounded (of_int 1)) m)).

Lemma growth_step_returns v vs year :
  is_zero m = false ->
  growth_step c r m (v, vs) year = Ok (next v, vs ++ [next v]).
Proof.
  intros Hm. unfold growth_step. rewrite compounded_ok.
  cbn [mbind result_bind]. unfold truediv. rewrite Hm. reflexivity.
Qed.

Lemma growth_step_raises v vs year :
  is_zero m = true ->
  growth_step c r m (v, vs) year = Raise ZeroDivisionError.
Proof.
  intros Hm. unfold growth_step. rewrite compounded_ok.
  cbn [mbind result_bind]. unfold truediv. rewrite Hm. reflexivity.
Qed.

Lemma for_each_growth_steps (ys : list Z) :
  is_zero m = false ->
  forall v vs,
    for_each (growth_step c r m) ys (v, vs)
    = Ok (Nat.iter (length ys) next v,
          vs ++ map (fun k => Nat.iter k next v) (seq 1 (length ys))).
Proof.
  intros Hm. induction ys as [|y ys IH]; intros v vs.
  - simpl. now rewrite app_nil_r.
  - cbn [for_each]. rewrite growth_step_returns by assumption.
    cbn [mbind result_bind]. rewrite IH.
    cbn [length]. rewrite <- Nat.iter_succ_r. f_equal. f_equal.
    cbn [seq map]. rewrite <- app_assoc. f_equal. cbn [app]. f_equal.
    rewrite <- (seq_shift (length ys) 1), map_map.
    apply map_ext. intros k. now rewrite <- Nat.iter_succ_r.
Qed.
End AnyLoop.

(** C3: [project_portfolio_growth] computes the value of year [y], for
    each [y] from 1 to the horizon, as the previous year's value times
    (1 + annualReturn) plus
    monthlyContribution * ((1 + monthlyReturn)^12 - 1) / monthlyReturn with
    monthlyReturn = (1 + annualReturn)^(1/12) - 1, and appends the values in
    increasing year order. Every operation of the formula is the one of
    the number type the function is run on (for the application, the
    rounding operations of binary64); [root] and [compounded] name the
    values the two powers evaluate to. Where the monthly return so
    computed is zero the division raises, in the first year. *)
Theorem project_portfolio_growth_computes_formula
    {T : Type} `{Power T} (init c : T) (h : Z) (r root compounded : T) :
  pow (add (of_int 1) r) (int_truediv 1 12) = Ok root ->
  let monthly_return := sub root (of_int 1) in
  pow_int (add (of_int 1) monthly_return) 12 = Ok compounded ->
  (is_zero monthly_return = false ->
   exists years values,
     project_portfolio_growth init c h r = Ok (years, values)
     /\ years = np_arange (h + 1)
     /\ length values = S (Z.to_nat h)
     /\ values !! O = Some init
     /\ forall y : nat, (1 <= y <= Z.to_nat h)%nat ->
          exists previous current,
            values !! (y - 1)%nat = Some previous
            /\ values !! y = Some current
            /\ years !! y = Some (Z.of_nat y)
            /\ current
               = add (mul previous (add (of_int 1) r))
                     (mul c (div (sub compounded (of_int 1)) monthly_return)))
  /\ (is_zero monthly_return = true -> (1 <= h)%Z ->
      project_portfolio_growth init c h r = Raise ZeroDivisionError).
Proof.
  intros Hroot monthly_return Hcomp.
  set (next := fun v : T =>
         add (mul v (add (of_int 1) r))
             (mul c (div (sub compounded (of_int 1)) monthly_return))).
  split.
  - intros Hm.
    exists (np_arange (h + 1)),
           (map (fun k => Nat.iter k next init) (seq 0 (S (Z.to_nat h)))).
    split.
    { unfold project_portfolio_growth. cbn [int_div Z.eqb mbind result_bind].
      rewrite Hroot. cbn [mbind result_bind]. fold monthly_return.
      rewrite (for_each_growth_steps c r monthly_return compounded Hcomp)
        by assumption.
      cbn [mbind result_bind]. rewrite length_range_1. reflexivity. }
    split; [reflexivity|].
    split; [now rewrite length_map, length_seq|].
    split; [reflexivity|].
    intros y Hy.
    exists (Nat.iter (y - 1) next init), (Nat.iter y next init).
    split; [rewrite list_lookup_fmap, lookup_seq_lt by lia; reflexivity|].
    split; [rewrite list_lookup_fmap, lookup_seq_lt by lia; reflexivity|].
    split.
    + rewrite np_arange_nat, list_lookup_fmap, lookup_seq_lt by lia.
      reflexivity.
    + destruct y as [|y]; [lia|].
      replace (S y - 1)%nat with y by lia. reflexivity.
  - intros Hm Hh. unfold project_portfolio_growth.
    cbn [int_div Z.eqb mbind result_bind]. rewrite Hroot.
    cbn [mbind result_bind]. fold monthly_return.
    unfold range. rewrite seqZ_cons by lia. cbn [for_each].
    rewrite (growth_step_raises c r monthly_return compounded Hcomp)
      by assumption.
    reflexivity.
Qed.


Lemma project_portfolio_growth_pow_raises
    {T : Type} `{Power T} (init c : T) (h : Z) (r : T) (e : exn) :
  pow (add (of_int 1) r) (int_truediv 1 12) = Raise e ->
  project_portfolio_growth init c h r = Raise e.
Proof.
  intros Hroot. unfold project_portfolio_growth.
  cbn [int_div Z.eqb mbind result_bind]. now rewrite Hroot.
Qed.

Lemma growth_step_exact (c r m : R) (st : R * list R) (year : Z) :
  growth_step c r m st year = RoboAdvisor.growth_step c r m st year.
Proof.
  unfold growth_step, RoboAdvisor.growth_step. destruct st as [v vs].
  cbn [pow_int exact_power add sub mul of_int exact].
  destruct (Py.pow_int (1 + m) 12) as [p|e|]; try reflexivity.
  cbn [mbind result_bind]. unfold truediv, Py.truediv.
  cbn [is_zero div exact]. now destruct (Req_dec_T m 0).
Qed.

Lemma for_each_ext {A S : Type} (f g : S -> A -> result S) (xs : list A) :
  (forall s x, f s x = g s x) ->
  forall s, for_each f xs s = for_each g xs s.
Proof.
  intros Hfg. induction xs as [|x xs IH]; intros s; [reflexivity|].
  cbn [for_each]. rewrite Hfg. destruct (g s x); cbn [mbind result_bind]; auto.
Qed.

(** Over the real numbers the function is the one of [RoboAdvisor]. *)
Lemma project_portfolio_growth_exact (init c : R) (h : Z) (r : R) :
  project_portfolio_growth init c h r
  = RoboAdvisor.project_portfolio_growth init c h r.
Proof.
  unfold project_portfolio_growth, RoboAdvisor.project_portfolio_growth.
  cbn [int_div Z.eqb mbind result_bind int_truediv pow exact_power add sub
       of_int exact].
  destruct (Py.pow (1 + r) (1 / 12)) as [root|e|]; try reflexivity.
  cbn [mbind result_bind].
  now rewrite (for_each_ext _ _ _ (growth_step_exact c r (root - 1))).
Qed.

Lemma project_portfolio_growth_computes_formula_witness :
  exists years values,
    project_portfolio_growth (T := R) 10000 200 20 0.045 = Ok (years, values)
    /\ length values = 21%nat.
Proof.
  destruct (project_portfolio_growth_computes_formula (T := R)
              10000 200 20 0.045
              (Rpower (1 + 0.045) (1 / 12))
              ((1 + (Rpower (1 + 0.045) (1 / 12) - 1)) ^ 12)) as [Hok _].
  - apply pow_positive. lra.
  - reflexivity.
  - destruct Hok as (years & values & Hrun & _ & Hlen & _).
    + cbn [is_zero exact sub of_int].
      destruct (Req_dec_T (Rpower (1 + 0.045) (1 / 12) - 1) 0) as [Hz|];
        [|reflexivity].
      exfalso. assert (1 + 0.045 = 1) by (apply twelfth_root_is_1; lra). lra.
    + exists years, values. split; [exact Hrun | exact Hlen].
Defined.

(** C10 as the specification states it fails in the floats the function
    is run on: with the stock return the float next above 1.0 and the bond
    return 1.0, the results for Conservative and Moderate are both 1.0. *)
Lemma expected_return_floats_coincide :
  PrimFloat.ltb float_1 float_above_1 = true
  /\ calculate_portfolio_return "Conservative" float_above_1 float_1 = Ok float_1
  /\ calculate_portfolio_return "Moderate" float_above_1 float_1 = Ok float_1.
Proof. repeat split. Qed.

(** Over the real numbers the function is the one of [RoboAdvisor]. *)
Lemma calculate_portfolio_return_exact (p : string) (s b : R) :
  calculate_portfolio_return p s b
  = RoboAdvisor.calculate_portfolio_return p s b.
Proof.
  unfold calculate_portfolio_return, RoboAdvisor.calculate_portfolio_return.
  destruct (getitem ALLOCATION_STRATEGY p) as [alloc|e|]; try reflexivity.
  cbn [mbind result_bind].
  destruct (getitem alloc "Stocks") as [st|e|]; try reflexivity.
  cbn [mbind result_bind int_div Z.eqb]. rewrite truediv_percent.
  cbn [mbind result_bind].
  destruct (getitem alloc "Bonds") as [bo|e|]; try reflexivity.
  cbn [mbind result_bind int_div Z.eqb]. rewrite truediv_percent.
  reflexivity.
Qed.

(** C10, as the code has it: when the stock return exceeds the bond
    return, the three weighted sums are strictly increasing from
    Conservative to Moderate to Aggressive when evaluated without
    rounding; evaluated in binary64 they are strictly increasing for the
    application's constants 0.08 and 0.03. *)
Theorem expected_return_order (s b : R) :
  b < s ->
  (exists c m a : R,
     calculate_portfolio_return "Conservative" s b = Ok c
     /\ calculate_portfolio_return "Moderate" s b = Ok m
     /\ calculate_portfolio_return "Aggressive" s b = Ok a
     /\ c < m /\ m < a)
  /\ (exists c m a : PrimFloat.float,
        calculate_portfolio_return "Conservative" float_0_08 float_0_03 = Ok c
        /\ calculate_portfolio_return "Moderate" float_0_08 float_0_03 = Ok m
        /\ calculate_portfolio_return "Aggressive" float_0_08 float_0_03 = Ok a
        /\ PrimFloat.ltb c m = true /\ PrimFloat.ltb m a = true).
Proof.
  intros Hsb. split.
  - eexists _, _, _. rewrite !calculate_portfolio_return_exact.
    rewrite (calculate_portfolio_return_of_weights _ 30 70) by reflexivity.
    rewrite (calculate_portfolio_return_of_weights _ 60 40) by reflexivity.
    rewrite (calculate_portfolio_return_of_weights _ 90 10) by reflexivity.
    repeat split; lra.
  - eexists _, _, _. repeat split.
Qed.

Lemma expected_return_order_witness :
  exists c m a : R,
    calculate_portfolio_return "Conservative" 0.08 0.03 = Ok c
    /\ calculate_portfolio_return "Moderate" 0.08 0.03 = Ok m
    /\ calculate_portfolio_return "Aggressive" 0.08 0.03 = Ok a
    /\ c < m /\ m < a.
Proof.
  refine (proj1 (expected_return_order 0.08 0.03 _)). lra.
Defined.

Section Binary64.
Variable float_pow : PrimFloat.float -> PrimFloat.float -> result PrimFloat.float.
Hypothesis float_pow_one : forall y, float_pow float_1 y = Ok float_1.

(** X18: in the floats of the application a return need not be zero to
    hit the division by zero: whenever [1 + annual_return] rounds to 1.0
    (as for 1e-16), the monthly return computed is 0.0 and a call with a
    horizon of at least one year raises [ZeroDivisionError]. All that is
    used of Python's [**] is that 1.0 to any power is 1.0. *)
Theorem tiny_return_raises (init c : PrimFloat.float) (h : Z) (r : PrimFloat.float) :
  PrimFloat.add float_1 r = float_1 -> (1 <= h)%Z ->
  @project_portfolio_growth _ binary64 (python_float_power float_pow)
    init c h r
  = Raise ZeroDivisionError.
Proof.
  intros Hr Hh. unfold project_portfolio_growth.
  cbn [int_div Z.eqb mbind result_bind pow python_float_power].
  change (add (of_int 1) r) with (PrimFloat.add float_1 r).
  rewrite Hr, float_pow_one. cbn [mbind result_bind].
  unfold range. rewrite seqZ_cons by lia. cbn [for_each].
  rewrite (growth_step_raises (H0 := python_float_power float_pow)
             c r _ float_1); [reflexivity | | reflexivity].
  cbn [pow_int python_float_power]. apply float_pow_one.
Qed.
End Binary64.

Lemma tiny_return_raises_witness :
  @project_portfolio_growth _ binary64
    (python_float_power (fun x _ => Ok x))
    (float_of_Z 10000) (float_of_Z 200) 1 float_1e_16
  = Raise ZeroDivisionError.
Proof.
  apply tiny_return_raises.
  - reflexivity.
  - reflexivity.
  - lia.
Defined.

End AnyNumberProofs.

(** ** The coin-flip simulation *)

Module SimulationProofs.

Import LawOfLargeNumbers.

Lemma draw_row_spec cols : forall g,
  length (draw_row cols g).1 = cols
  /\ Forall (fun b => b = 0%Z \/ b = 1%Z) (draw_row cols g).1
  /\ bits (draw_row cols g).2 = bits g
  /\ pos (draw_row cols g).2 = (pos g + cols)%nat.
Proof.
  induction cols as [|cols IH]; intros g; simpl.
  - repeat split; [constructor | lia].
  - destruct (draw_row cols _) as [row g2] eqn:E.
    specialize (IH {| bits := bits g; pos := S (pos g) |}). rewrite E in IH.
    simpl in *. destruct IH as (Hl & Hf & Hb & Hp).
    repeat split; [lia | | assumption | lia].
    constructor; [destruct (bits g (pos g)); auto | assumption].
Qed.

Lemma draw_rows_spec rows cols : forall g,
  coin_table rows cols (draw_rows rows cols g).1
  /\ bits (draw_rows rows cols g).2 = bits g
  /\ pos (draw_rows rows cols g).2 = (pos g + rows * cols)%nat.
Proof.
  induction rows as [|rows IH]; intros g; simpl.
  - repeat split; [constructor | lia].
  - pose proof (draw_row_spec cols g) as (Hl & Hf & Hb & Hp).
    destruct (draw_row cols g) as [row g1]. simpl in *.
    specialize (IH g1). destruct (draw_rows rows cols g1) as [rest g2].
    simpl in *. destruct IH as ((Hlen & Hall) & Hb2 & Hp2).
    repeat split; simpl; [lia | | congruence | lia].
    constructor; [split; assumption | assumption].
Qed.

Lemma sum_flips (row : list Z) :
  Forall (fun b => b = 0%Z \/ b = 1%Z) row ->
  foldr Z.add 0%Z row = heads_count row.
Proof.
  unfold heads_count. induction 1 as [|b row Hb _ IH]; [reflexivity|].
  cbn [foldr]. rewrite IH. destruct Hb as [-> | ->]; simpl.
  - reflexivity.
  - lia.
Qed.

Lemma heads_count_bounds (row : list Z) :
  (0 <= heads_count row <= Z.of_nat (length row))%Z.
Proof.
  unfold heads_count. pose proof (count_occ_bound Z.eq_dec 1%Z row). lia.
Qed.

Lemma np_true_divide_proportion (k n : Z) :
  (0 <= k <= n)%Z -> (0 < n)%Z ->
  in_unit_interval (np_true_divide k n).
Proof.
  intros Hk Hn. unfold np_true_divide.
  destruct (Z.eqb_spec n 0) as [->|_]; [lia|].
  unfold in_unit_interval. rewrite !Qred_correct.
  unfold Qdiv, Qinv, inject_Z, Qmult, Qle. simpl.
  destruct n as [|n|n]; try lia. simpl. lia.
Qed.

Lemma body_negative (n_flips n_sims : Z) (p : process) :
  (n_flips < 0 \/ n_sims < 0)%Z ->
  run_simulation_body n_flips n_sims p = (Raise ValueError, p).
Proof.
  intros H. unfold run_simulation_body, mbind, sim_bind, np_random_randint_0_2.
  replace ((n_sims <? 0)%Z || (n_flips <? 0)%Z) with true; [reflexivity|].
  symmetry. apply orb_true_iff. rewrite !Z.ltb_lt. tauto.
Qed.

Lemma body_nonnegative (n_flips n_sims : Z) (p : process) :
  (0 <= n_flips)%Z -> (0 <= n_sims)%Z ->
  exists t,
    coin_table (Z.to_nat n_sims) (Z.to_nat n_flips) t
    /\ (run_simulation_body n_flips n_sims p).1
       = Ok (map (fun row => np_true_divide (heads_count row) n_flips) t).
Proof.
  intros Hf Hs. unfold run_simulation_body, mbind, sim_bind, np_random_randint_0_2.
  replace ((n_sims <? 0)%Z || (n_flips <? 0)%Z) with false
    by (symmetry; apply orb_false_iff; rewrite !Z.ltb_ge; tauto).
  pose proof (draw_rows_spec (Z.to_nat n_sims) (Z.to_nat n_flips) (np_random p))
    as (Ht & _).
  destruct (draw_rows _ _ _) as [t g']. simpl in *.
  exists t. split; [assumption|].
  f_equal. unfold np_sum_axis1. rewrite map_map.
  destruct Ht as [_ Hall]. induction Hall as [|row t [_ Hrow] _ IH]; [reflexivity|].
  simpl. rewrite IH. now rewrite sum_flips.
Qed.

Lemma run_simulation_hit n_flips n_sims p l :
  cache p !! (n_flips, n_sims) = Some l ->
  run_simulation n_flips n_sims p = (Ok l, p).
Proof. intros H. unfold run_simulation, st_cache_data. now rewrite H. Qed.

Lemma run_simulation_cache n_flips n_sims p l :
  (run_simulation n_flips n_sims p).1 = Ok l ->
  cache (run_simulation n_flips n_sims p).2 !! (n_flips, n_sims) = Some l.
Proof.
  unfold run_simulation, st_cache_data.
  destruct (cache p !! (n_flips, n_sims)) as [v|] eqn:E.
  - simpl. intros [= <-]. assumption.
  - destruct (run_simulation_body n_flips n_sims p) as [[v|e|] p'];
      simpl; try discriminate.
    intros [= <-]. apply lookup_insert_eq.
Qed.

Lemma run_simulation_keeps n_flips n_sims p k l :
  cache p !! k = Some l ->
  cache (run_simulation n_flips n_sims p).2 !! k = Some l.
Proof.
  intros Hk. unfold run_simulation, st_cache_data.
  destruct (cache p !! (n_flips, n_sims)) as [v|] eqn:E; [assumption|].
  unfold run_simulation_body, mbind, sim_bind, np_random_randint_0_2, raise.
  destruct ((n_sims <? 0)%Z || (n_flips <? 0)%Z); [assumption|].
  destruct (draw_rows _ _ _) as [t g']. simpl.
  rewrite lookup_insert_ne; [assumption|]. intros <-. congruence.
Qed.

Lemma run_simulation_sound n_flips n_sims p :
  cache_sound p -> cache_sound (run_simulation n_flips n_sims p).2.
Proof.
  intros Hp f s l. unfold run_simulation, st_cache_data.
  destruct (cache p !! (n_flips, n_sims)) as [v|] eqn:E; [apply Hp|].
  destruct (run_simulation_body n_flips n_sims p) as [[v|e|] p'] eqn:Eb;
    simpl.
  2,3: (unfold run_simulation_body, mbind, sim_bind, np_random_randint_0_2, raise in Eb;
        destruct ((n_sims <? 0)%Z || (n_flips <? 0)%Z);
          [injection Eb as _ <-; apply Hp | destruct (draw_rows _ _ _); discriminate]).
  assert (cache p' = cache p) as Hc.
  { unfold run_simulation_body, mbind, sim_bind, np_random_randint_0_2, raise in Eb.
    destruct ((n_sims <? 0)%Z || (n_flips <? 0)%Z); [discriminate|].
    destruct (draw_rows _ _ _). injection Eb as _ <-. reflexivity. }
  rewrite Hc. intros Hl.
  destruct (decide ((n_flips, n_sims) = (f, s))) as [[= <- <-]|Hne].
  - rewrite lookup_insert_eq in Hl. injection Hl as <-.
    exists p. now rewrite Eb.
  - rewrite lookup_insert_ne in Hl by assumption. eapply Hp, Hl.
Qed.

Lemma after_sound p q : after p q -> cache_sound p -> cache_sound q.
Proof. induction 1; auto using run_simulation_sound. Qed.

Lemma reachable_sound p : reachable p -> cache_sound p.
Proof.
  intros [g Hg]. apply (after_sound _ _ Hg).
  intros f s l H. unfold fresh in H. simpl in H. now rewrite lookup_empty in H.
Qed.

Lemma run_simulation_as_body n_flips n_sims p :
  cache_sound p ->
  exists p0,
    (run_simulation n_flips n_sims p).1 = (run_simulation_body n_flips n_sims p0).1.
Proof.
  intros Hp. unfold run_simulation, st_cache_data.
  destruct (cache p !! (n_flips, n_sims)) as [v|] eqn:E.
  - destruct (Hp _ _ _ E) as [p0 H0]. exists p0. now rewrite H0.
  - exists p. now destruct (run_simulation_body n_flips n_sims p) as [[v|e|] p'].
Qed.

Lemma body_draws (n_flips n_sims : Z) (p : process) :
  (0 < n_flips)%Z -> (0 <= n_sims)%Z ->
  (run_simulation_body n_flips n_sims p).1
  = Ok (map (fun row =>
               Finite (Qred (inject_Z (heads_count row) / inject_Z n_flips)))
            (draw_rows (Z.to_nat n_sims) (Z.to_nat n_flips) (np_random p)).1).
Proof.
  intros Hf Hs. unfold run_simulation_body, mbind, sim_bind, np_random_randint_0_2.
  replace ((n_sims <? 0)%Z || (n_flips <? 0)%Z) with false
    by (symmetry; apply orb_false_iff; rewrite !Z.ltb_ge; lia).
  pose proof (draw_rows_spec (Z.to_nat n_sims) (Z.to_nat n_flips) (np_random p))
    as ([_ Hall] & _).
  destruct (draw_rows _ _ _) as [t g']. cbn [fst snd] in *.
  cbn [mret sim_ret fst]. f_equal. unfold np_sum_axis1. rewrite map_map.
  induction Hall as [|row t [_ Hrow] _ IH]; [reflexivity|].
  cbn [map]. rewrite IH, sum_flips by assumption. f_equal.
  unfold np_true_divide. destruct (Z.eqb_spec n_flips 0); [lia | reflexivity].
Qed.

Lemma run_simulation_miss (n_flips n_sims : Z) (p : process) :
  cache p !! (n_flips, n_sims) = None ->
  (run_simulation n_flips n_sims p).1 = (run_simulation_body n_flips n_sims p).1.
Proof.
  intros Hmiss. unfold run_simulation, st_cache_data. rewrite Hmiss.
  now destruct (run_simulation_body n_flips n_sims p) as [[v|e|] p'].
Qed.

Lemma cache_after_call (n_flips n_sims : Z) (q : process) (k : Z * Z)
    (l : list float64) :
  cache (run_simulation n_flips n_sims q).2 !! k = Some l ->
  cache q !! k = Some l
  \/ (k = (n_flips, n_sims) /\ cache q !! k = None
      /\ (run_simulation n_flips n_sims q).1 = Ok l).
Proof.
  unfold run_simulation, st_cache_data.
  destruct (cache q !! (n_flips, n_sims)) as [v|] eqn:E; [now left|].
  unfold run_simulation_body, mbind, sim_bind, np_random_randint_0_2, raise.
  destruct ((n_sims <? 0)%Z || (n_flips <? 0)%Z); [now left|].
  destruct (draw_rows _ _ _) as [t g']. cbn [fst snd cache mret sim_ret].
  destruct (decide (k = (n_flips, n_sims))) as [->|Hne].
  - rewrite lookup_insert_eq. intros [= <-]. right. auto.
  - rewrite lookup_insert_ne by congruence. now left.
Qed.

Lemma cache_origin (g0 : generator) (p : process) :
  after (fresh g0) p ->
  forall n_flips n_sims l,
    cache p !! (n_flips, n_sims) = Some l ->
    exists q,
      reachable q
      /\ cache q !! (n_flips, n_sims) = None
      /\ (run_simulation n_flips n_sims q).1 = Ok l
      /\ after (run_simulation n_flips n_sims q).2 p.
Proof.
  induction 1 as [|q f s Hq IH]; intros n_flips n_sims l Hl.
  - unfold fresh in Hl. simpl in Hl. now rewrite lookup_empty in Hl.
  - apply cache_after_call in Hl as [Hold | ([= -> ->] & Hmiss & Hrun)].
    + destruct (IH _ _ _ Hold) as (q0 & Hr & Hm & Hrun & Hafter).
      exists q0. repeat split; try assumption. now apply after_call.
    + exists q. repeat split; try assumption.
      * now exists g0.
      * apply after_now.
Qed.

(** C2: for all positive numbers of flips per run and of runs,
    [run_simulation] returns a sequence of exactly [n_sims] values, each in
    the closed interval [0, 1], each being the count of heads in one run
    of [n_flips] flips divided by [n_flips]. The flips are those the
    global generator delivers to the call that computes the sequence: this
    call when it is not answered from the cache, and otherwise the earlier
    call with the same counts that filled the cache. *)
Theorem run_simulation_proportions (p : process) (n_flips n_sims : Z) :
  reachable p -> (0 < n_flips)%Z -> (0 < n_sims)%Z ->
  exists q,
    reachable q
    /\ cache q !! (n_flips, n_sims) = None
    /\ (cache p !! (n_flips, n_sims) = None -> q = p)
    /\ (q = p \/ after (run_simulation n_flips n_sims q).2 p)
    /\ let t := (draw_rows (Z.to_nat n_sims) (Z.to_nat n_flips)
                   (np_random q)).1 in
       let l := map (fun row =>
                       Finite (Qred (inject_Z (heads_count row)
                                     / inject_Z n_flips))) t in
       (run_simulation n_flips n_sims p).1 = Ok l
       /\ length l = Z.to_nat n_sims
       /\ Forall in_unit_interval l.
Proof.
  intros Hp Hf Hs.
  assert (Hcells : forall q,
    let t := (draw_rows (Z.to_nat n_sims) (Z.to_nat n_flips) (np_random q)).1 in
    let l := map (fun row =>
                    Finite (Qred (inject_Z (heads_count row)
                                  / inject_Z n_flips))) t in
    length l = Z.to_nat n_sims /\ Forall in_unit_interval l).
  { intros q t l. unfold l, t.
    pose proof (draw_rows_spec (Z.to_nat n_sims) (Z.to_nat n_flips) (np_random q))
      as ([Hlen Hall] & _).
    split; [now rewrite length_map|].
    apply Forall_map. eapply Forall_impl; [exact Hall|].
    intros row [Hrow _]. simpl.
    pose proof (np_true_divide_proportion (heads_count row) n_flips) as Hdiv.
    unfold np_true_divide in Hdiv.
    destruct (Z.eqb_spec n_flips 0); [lia|].
    apply Hdiv; [|lia]. pose proof (heads_count_bounds row). lia. }
  destruct (cache p !! (n_flips, n_sims)) as [l|] eqn:E.
  - destruct Hp as [g0 Hp0].
    destruct (cache_origin g0 p Hp0 _ _ _ E) as (q & Hr & Hm & Hrun & Hafter).
    exists q. split; [assumption|]. split; [assumption|].
    split; [discriminate|]. split; [now right|].
    cbn zeta. split; [|apply Hcells].
    rewrite (run_simulation_hit _ _ _ _ E). cbn [fst].
    rewrite <- Hrun, run_simulation_miss by assumption.
    apply body_draws; lia.
  - exists p. split; [assumption|]. split; [assumption|].
    split; [reflexivity|]. split; [now left|].
    cbn zeta. split; [|apply Hcells].
    rewrite run_simulation_miss by assumption. apply body_draws; lia.
Qed.

Lemma run_simulation_proportions_witness :
  (run_simulation 10 5 (fresh all_heads)).1 = Ok (replicate 5 (Finite 1)).
Proof.
  destruct (run_simulation_proportions (fresh all_heads) 10 5)
    as (q & _ & _ & Hq & _ & Hrun & _).
  - exists all_heads. apply after_now.
  - lia.
  - lia.
  - rewrite Hrun, (Hq eq_refl). vm_compute. reflexivity.
Defined.


Lemma body_zero_sims n_flips p :
  (0 <= n_flips)%Z -> (run_simulation_body n_flips 0 p).1 = Ok [].
Proof.
  intros Hf. destruct (body_nonnegative n_flips 0 p) as (t & [Hlen _] & ->);
    [lia | lia |].
  destruct t; [reflexivity | discriminate].
Qed.

Lemma body_zero_flips n_sims p :
  (0 <= n_sims)%Z ->
  (run_simulation_body 0 n_sims p).1 = Ok (replicate (Z.to_nat n_sims) NaN).
Proof.
  intros Hs. destruct (body_nonnegative 0 n_sims p) as (t & [Hlen Hall] & ->);
    [lia | lia |].
  f_equal. rewrite <- Hlen. clear Hlen.
  induction Hall as [|row t [Hrow _] _ IH]; [reflexivity|].
  simpl. rewrite IH. destruct row; [reflexivity | discriminate].
Qed.

Lemma negative_not_cached p n_flips n_sims :
  cache_sound p -> (n_flips < 0 \/ n_sims < 0)%Z ->
  cache p !! (n_flips, n_sims) = None.
Proof.
  intros Hp Hneg. destruct (cache p !! (n_flips, n_sims)) as [l|] eqn:E;
    [|reflexivity].
  destruct (Hp _ _ _ E) as [p0 H0].
  rewrite body_negative in H0 by assumption. discriminate.
Qed.

(** C6, as the code has it: [run_simulation] has no argument check of its
    own. A negative count makes the array library raise [ValueError],
    leaving the process as it was (no partial result, nothing cached);
    zero runs give the empty sequence; zero flips give one not-a-number
    per run; and in no out-of-range case does a value of [0, 1] come
    back, as it would had the argument been clamped to a valid one. *)
Theorem run_simulation_out_of_range (p : process) (n_flips n_sims : Z) :
  reachable p -> (n_flips <= 0 \/ n_sims <= 0)%Z ->
  ((n_flips < 0 \/ n_sims < 0)%Z ->
     run_simulation n_flips n_sims p = (Raise ValueError, p))
  /\ ((0 <= n_flips)%Z -> n_sims = 0%Z ->
       (run_simulation n_flips n_sims p).1 = Ok [])
  /\ (n_flips = 0%Z -> (0 <= n_sims)%Z ->
       (run_simulation n_flips n_sims p).1
       = Ok (replicate (Z.to_nat n_sims) NaN))
  /\ (forall l, (run_simulation n_flips n_sims p).1 = Ok l ->
       Forall (fun x => ~ in_unit_interval x) l).
Proof.
  intros Hp Hout. apply reachable_sound in Hp.
  assert (Hneg : (n_flips < 0 \/ n_sims < 0)%Z ->
                 run_simulation n_flips n_sims p = (Raise ValueError, p)).
  { intros Hneg. unfold run_simulation, st_cache_data.
    rewrite negative_not_cached by assumption.
    now rewrite body_negative by assumption. }
  assert (Hsims : (0 <= n_flips)%Z -> n_sims = 0%Z ->
                  (run_simulation n_flips n_sims p).1 = Ok []).
  { intros Hf ->. destruct (run_simulation_as_body n_flips 0 p Hp) as [p0 ->].
    now apply body_zero_sims. }
  assert (Hflips : n_flips = 0%Z -> (0 <= n_sims)%Z ->
                   (run_simulation n_flips n_sims p).1
                   = Ok (replicate (Z.to_nat n_sims) NaN)).
  { intros -> Hs. destruct (run_simulation_as_body 0 n_sims p Hp) as [p0 ->].
    now apply body_zero_flips. }
  repeat split; try assumption.
  intros l Hl.
  destruct (Z_lt_le_dec n_flips 0) as [Hf|Hf];
    [rewrite Hneg in Hl by tauto; discriminate|].
  destruct (Z_lt_le_dec n_sims 0) as [Hs|Hs];
    [rewrite Hneg in Hl by tauto; discriminate|].
  destruct Hout as [Hz|Hz].
  - rewrite Hflips in Hl by lia. injection Hl as <-.
    apply Forall_replicate. simpl. tauto.
  - rewrite Hsims in Hl by lia. injection Hl as <-. constructor.
Qed.

Lemma run_simulation_out_of_range_witness :
  (run_simulation 0 10 (fresh all_heads)).1 = Ok (replicate 10 NaN)
  /\ run_simulation 10 (-5) (fresh all_tails) = (Raise ValueError, fresh all_tails).
Proof.
  split.
  - refine (proj1 (proj2 (proj2
      (run_simulation_out_of_range (fresh all_heads) 0 10 _ _))) _ _).
    + exists all_heads. apply after_now.
    + lia.
    + reflexivity.
    + lia.
  - refine (proj1 (run_simulation_out_of_range (fresh all_tails) 10 (-5) _ _) _).
    + exists all_tails. apply after_now.
    + lia.
    + lia.
Defined.

Lemma draw_row_agree cols : forall g1 g2,
  (forall i, (i < cols)%nat -> bits g1 (pos g1 + i) = bits g2 (pos g2 + i)) ->
  (draw_row cols g1).1 = (draw_row cols g2).1.
Proof.
  induction cols as [|cols IH]; intros g1 g2 H; [reflexivity|].
  simpl.
  specialize (IH {| bits := bits g1; pos := S (pos g1) |}
                 {| bits := bits g2; pos := S (pos g2) |}).
  destruct (draw_row cols {| bits := bits g1; pos := S (pos g1) |}) as [r1 h1].
  destruct (draw_row cols {| bits := bits g2; pos := S (pos g2) |}) as [r2 h2].
  simpl in *. f_equal.
  - specialize (H O ltac:(lia)). rewrite !Nat.add_0_r in H. now rewrite H.
  - apply IH. intros i Hi. specialize (H (S i) ltac:(lia)).
    now rewrite !Nat.add_succ_r in H.
Qed.

Lemma draw_rows_agree rows cols : forall g1 g2,
  (forall i, (i < rows * cols)%nat ->
             bits g1 (pos g1 + i) = bits g2 (pos g2 + i)) ->
  (draw_rows rows cols g1).1 = (draw_rows rows cols g2).1.
Proof.
  induction rows as [|rows IH]; intros g1 g2 H; [reflexivity|].
  simpl.
  pose proof (draw_row_agree cols g1 g2) as Hrow.
  pose proof (draw_row_spec cols g1) as (_ & _ & Hb1 & Hp1).
  pose proof (draw_row_spec cols g2) as (_ & _ & Hb2 & Hp2).
  destruct (draw_row cols g1) as [r1 h1]. destruct (draw_row cols g2) as [r2 h2].
  simpl in *. specialize (IH h1 h2).
  destruct (draw_rows rows cols h1) as [t1 k1].
  destruct (draw_rows rows cols h2) as [t2 k2].
  simpl in *. f_equal.
  - apply Hrow. intros i Hi. apply H. lia.
  - apply IH. intros i Hi. rewrite Hb1, Hb2, Hp1, Hp2.
    rewrite <- !Nat.add_assoc. apply H. lia.
Qed.

Lemma after_keeps p q k l :
  after p q -> cache p !! k = Some l -> cache q !! k = Some l.
Proof. induction 1; auto using run_simulation_keeps. Qed.

(** C9, as the code has it: [run_simulation] takes no seed. On a call
    that is not answered from the cache, the output is fixed by the two
    arguments and the next [n_sims * n_flips] outcomes of the global
    generator (so by the seed the caller gave that generator); and once a
    call has returned, every later call with the same arguments in the
    same process returns the same sequence from the cache, leaving the
    process untouched. *)
Theorem run_simulation_reproducible (n_flips n_sims : Z) (p1 p2 : process) :
  cache p1 !! (n_flips, n_sims) = None ->
  cache p2 !! (n_flips, n_sims) = None ->
  (forall i, (i < Z.to_nat n_sims * Z.to_nat n_flips)%nat ->
     bits (np_random p1) (pos (np_random p1) + i)
     = bits (np_random p2) (pos (np_random p2) + i)) ->
  (run_simulation n_flips n_sims p1).1 = (run_simulation n_flips n_sims p2).1
  /\ (forall l q,
        (run_simulation n_flips n_sims p1).1 = Ok l ->
        after (run_simulation n_flips n_sims p1).2 q ->
        run_simulation n_flips n_sims q = (Ok l, q)).
Proof.
  intros H1 H2 Hagree. split.
  - unfold run_simulation, st_cache_data. rewrite H1, H2.
    unfold run_simulation_body, mbind, sim_bind, np_random_randint_0_2, raise.
    destruct ((n_sims <? 0)%Z || (n_flips <? 0)%Z); [reflexivity|].
    pose proof (draw_rows_agree _ _ _ _ Hagree) as Ht.
    destruct (draw_rows _ _ (np_random p1)) as [t1 g1].
    destruct (draw_rows _ _ (np_random p2)) as [t2 g2].
    simpl in *. now rewrite Ht.
  - intros l q Hl Hq. apply run_simulation_hit.
    eapply after_keeps; [exact Hq|]. now apply run_simulation_cache.
Qed.

Lemma run_simulation_reproducible_witness :
  (run_simulation 10 5 (fresh all_heads)).1
  = (run_simulation 10 5
       (fresh {| bits := fun i => (i <? 50)%nat; pos := 0 |})).1.
Proof.
  refine (proj1 (run_simulation_reproducible 10 5 (fresh all_heads)
            (fresh {| bits := fun i => (i <? 50)%nat; pos := 0 |}) _ _ _)).
  - reflexivity.
  - reflexivity.
  - intros i Hi. simpl. symmetry. apply Nat.ltb_lt. exact Hi.
Defined.

(** C9 as the specification states it fails: the two counts are the
    function's only inputs, there is no seed among them to hold fixed, and
    two processes calling it with the same inputs (10, 5) get different
    sequences when their global generators differ. *)
Lemma run_simulation_not_reproducible :
  (run_simulation 10 5 (fresh all_heads)).1
  <> (run_simulation 10 5 (fresh all_tails)).1.
Proof. vm_compute. discriminate. Qed.

(** C6 as the specification states it fails: with zero flips per run the
    call returns ten not-a-number values and raises nothing. *)
Lemma run_simulation_zero_flips_returns :
  (run_simulation 0 10 (fresh all_heads)).1 = Ok (replicate 10 NaN).
Proof. vm_compute. reflexivity. Qed.

End SimulationProofs.

(** * Further properties of the two scripts *)

(** ** src/RoboAdvisor.py *)

Module RoboAdvisorExtras.

Import PyFacts RoboAdvisor RoboAdvisorProofs ProjectionProofs.
Local Open Scope R_scope.

(** X1: [calculate_portfolio_return] raises [KeyError], naming the
    profile it was given, exactly when the profile is not one of the three
    of the table, whatever the two returns. *)
Theorem unknown_profile_is_key_error (p : string) (s b : R) :
  calculate_portfolio_return p s b = Raise (KeyError p) <-> p ∉ risk_profiles.
Proof.
  split.
  - intros H Hp. revert H. revert p Hp.
    apply (risk_profiles_cases
             (fun p => calculate_portfolio_return p s b = Raise (KeyError p)
                       -> False)); intros H.
    + rewrite (calculate_portfolio_return_of_weights _ 30 70) in H by reflexivity.
      discriminate.
    + rewrite (calculate_portfolio_return_of_weights _ 60 40) in H by reflexivity.
      discriminate.
    + rewrite (calculate_portfolio_return_of_weights _ 90 10) in H by reflexivity.
      discriminate.
  - apply calculate_portfolio_return_unknown.
Qed.

Lemma annuity_factor_at_least_12 (m : R) :
  0 < m -> 12 <= ((1 + m) ^ 12 - 1) / m.
Proof.
  intros Hm. pose proof (poly 12 m Hm) as Hp.
  replace (INR 12) with 12 in Hp by (simpl; lra).
  set (X := (1 + m) ^ 12) in *.
  apply Rmult_le_reg_r with m; [exact Hm|].
  unfold Rdiv. rewrite Rmult_assoc, Rinv_l by lra. lra.
Qed.

Lemma spec_year_value_at_least_paid_in init c r y :
  0 <= init -> 0 <= c -> 0 < r ->
  init + 12 * c * INR y <= spec_year_value init c r y.
Proof.
  intros Hi Hc Hr. induction y as [|y IH].
  - simpl. lra.
  - rewrite S_INR. cbn [spec_year_value]. unfold spec_next_value.
    pose proof (spec_year_value_nonneg init c r Hi Hc Hr y) as Hv.
    assert (Hm : 0 < spec_monthly_return r).
    { unfold spec_monthly_return.
      pose proof (twelfth_root_above_1 (1 + r) ltac:(lra)). lra. }
    pose proof (annuity_factor_at_least_12 _ Hm) as Ha.
    set (A := ((1 + spec_monthly_return r) ^ 12 - 1) / spec_monthly_return r) in *.
    set (v := spec_year_value init c r y) in *.
    assert (0 <= v * r) by (apply Rmult_le_pos; lra).
    assert (c * 12 <= c * A) by (apply Rmult_le_compat_l; lra).
    lra.
Qed.

Lemma pow_twelfth_root_defined (r : R) :
  -1 <= r -> exists root, Py.pow (1 + r) (1 / 12) = Ok root.
Proof.
  intros Hr. unfold Py.pow.
  destruct (Rlt_dec 0 (1 + r)); [eauto|].
  destruct (Req_dec_T (1 + r) 0); [|lra].
  destruct (Rlt_dec (1 / 12) 0); [lra|].
  destruct (Req_dec_T (1 / 12) 0); eauto.
Qed.

(** X5: with a horizon of zero or less the loop does not run and nothing
    is divided, not even at a zero return: the values are the initial
    savings alone. The years are [[0]] for a horizon of 0 and empty for a
    negative one, so the two returned columns then differ in length. *)
Theorem project_portfolio_growth_no_years (init c : R) (h : Z) (r : R) :
  (h <= 0)%Z -> -1 <= r ->
  project_portfolio_growth init c h r = Ok (np_arange (h + 1), [init])
  /\ (h = 0%Z -> np_arange (h + 1) = [0%Z])
  /\ ((h < 0)%Z -> np_arange (h + 1) = []).
Proof.
  intros Hh Hr. split; [|split].
  - unfold project_portfolio_growth.
    destruct (pow_twelfth_root_defined r Hr) as [root ->].
    cbn [mbind result_bind]. unfold range, seqZ.
    replace (Z.to_nat (h + 1 - 1)) with O by lia. reflexivity.
  - intros ->. reflexivity.
  - intros Hneg. unfold np_arange, seqZ.
    replace (Z.to_nat (h + 1)) with O by lia. reflexivity.
Qed.

Lemma project_portfolio_growth_no_years_witness :
  project_portfolio_growth 10000 200 0 0 = Ok ([0%Z], [10000]).
Proof.
  destruct (project_portfolio_growth_no_years 10000 200 0 0) as (H & H0 & _);
    [lia | lra |].
  rewrite H, H0 by reflexivity. reflexivity.
Defined.





Lemma getitem_of_weights p sw bw :
  weights p = Some (sw, bw) ->
  exists alloc,
    getitem ALLOCATION_STRATEGY p = Ok alloc
    /\ getitem alloc "Stocks" = Ok sw
    /\ getitem alloc "Bonds" = Ok bw.
Proof.
  unfold weights, getitem.
  destruct (ALLOCATION_STRATEGY !! p) as [alloc|]; [|discriminate].
  cbn [mbind option_bind].
  destruct (alloc !! "Stocks"%string) as [st|] eqn:Es; [|discriminate].
  cbn [mbind option_bind].
  destruct (alloc !! "Bonds"%string) as [bo|] eqn:Eb; [|discriminate].
  cbn [mbind option_bind]. intros [= <- <-]. exists alloc.
  now rewrite Es, Eb.
Qed.

Lemma last_map_seq {A : Type} (f : nat -> A) (n : nat) :
  last (map f (seq 0 (S n))) = Some (f n).
Proof.
  rewrite last_lookup, length_map, length_seq. cbn [Init.Nat.pred].
  apply lookup_map_seq_0. lia.
Qed.

Lemma main_logic_of_weights (w : widgets) (sw bw : Z) :
  weights (risk_tolerance w) = Some (sw, bw) ->
  (0 <= investment_horizon w)%Z ->
  let r := IZR sw / 100 * AVG_STOCK_RETURN + IZR bw / 100 * AVG_BOND_RETURN in
  let final :=
    spec_year_value (IZR (current_savings w)) (IZR (monthly_contribution w)) r
      (Z.to_nat (investment_horizon w)) in
  let contributed :=
    (current_savings w
     + monthly_contribution w * 12 * investment_horizon w)%Z in
  -1 < r -> r <> 0 ->
  main_logic w
  = Done {| shown_stocks := sw;
            shown_bonds := bw;
            expected_portfolio_return := r;
            df_projection :=
              spec_projection (IZR (current_savings w))
                (IZR (monthly_contribution w)) (investment_horizon w) r;
            final_projected_value := final;
            total_contributed := contributed;
            total_gains := final - IZR contributed;
            shown_gains := max_0 (final - IZR contributed);
            shown_recommendations :=
              general_recommendations (risk_tolerance w) |}.
Proof.
  intros Hw Hh r final contributed Hr1 Hr0. unfold main_logic.
  destruct (getitem_of_weights _ _ _ Hw) as (alloc & -> & Hs & Hb).
  cbn [call mbind script_bind]. rewrite Hs. cbn [call mbind script_bind].
  rewrite Hb. cbn [call mbind script_bind].
  rewrite (calculate_portfolio_return_of_weights _ sw bw) by assumption.
  cbn [call mbind script_bind]. fold r.
  rewrite project_portfolio_growth_ok by assumption.
  cbn [call mbind script_bind]. unfold pd_DataFrame.
  destruct (decide _) as [_|Hne].
  2:{ exfalso. apply Hne. unfold np_arange.
      rewrite length_seqZ, length_map, length_seq. lia. }
  cbn [mbind script_bind]. unfold last_item. rewrite last_map_seq.
  cbn [mbind script_bind]. rewrite projection_series_ok. reflexivity.
Qed.

(** X7: for every combination the widgets can deliver, the calculation
    branch of the script completes without an exception: the expected
    return is between 4% and 8% (never the zero that makes the
    projection divide by zero), the table is the specification's series
    with [horizon + 1] rows, the final value is at least the total paid
    in, and so the gains displayed through [max(0, ...)] are the gains
    computed. *)
Theorem main_logic_with_widgets (w : widgets) :
  widgets_ok w ->
  exists p,
    main_logic w = Done p
    /\ weights (risk_tolerance w) = Some (shown_stocks p, shown_bonds p)
    /\ 0.04 <= expected_portfolio_return p <= 0.08
    /\ df_projection p
       = spec_projection (IZR (current_savings w))
           (IZR (monthly_contribution w)) (investment_horizon w)
           (expected_portfolio_return p)
    /\ length (df_projection p) = Z.to_nat (investment_horizon w + 1)
    /\ IZR (total_contributed p) <= final_projected_value p
    /\ shown_gains p = total_gains p.
Proof.
  intros (_ & Hh & Hs & Hc & Hp).
  assert (Hcases : exists sw bw,
            weights (risk_tolerance w) = Some (sw, bw)
            /\ 0.045 <= IZR sw / 100 * AVG_STOCK_RETURN
                        + IZR bw / 100 * AVG_BOND_RETURN <= 0.075).
  { revert Hp. generalize (risk_tolerance w).
    apply (risk_profiles_cases (fun p => exists sw bw,
             weights p = Some (sw, bw)
             /\ 0.045 <= IZR sw / 100 * AVG_STOCK_RETURN
                         + IZR bw / 100 * AVG_BOND_RETURN <= 0.075));
      eexists _, _; (split; [reflexivity|]);
      unfold AVG_STOCK_RETURN, AVG_BOND_RETURN; lra. }
  destruct Hcases as (sw & bw & Hw & Hr).
  eexists. split.
  { apply (main_logic_of_weights w sw bw Hw); lra || lia. }
  cbn [shown_stocks shown_bonds expected_portfolio_return df_projection
       final_projected_value total_contributed total_gains shown_gains].
  set (r := IZR sw / 100 * AVG_STOCK_RETURN + IZR bw / 100 * AVG_BOND_RETURN)
    in *.
  assert (Hfinal :
    IZR (current_savings w
         + monthly_contribution w * 12 * investment_horizon w)
    <= spec_year_value (IZR (current_savings w))
         (IZR (monthly_contribution w)) r
         (Z.to_nat (investment_horizon w))).
  { etransitivity;
      [|apply spec_year_value_at_least_paid_in;
         [apply IZR_le; lia | apply IZR_le; lia | lra]].
    rewrite INR_IZR_INZ, Z2Nat.id by lia.
    rewrite plus_IZR, !mult_IZR. lra. }
  repeat split; try lra; try assumption.
  - unfold spec_projection. now rewrite length_map, length_seq.
  - unfold max_0. destruct (Rlt_dec _ _) as [_|Hn]; [reflexivity|]. lra.
Qed.

Lemma main_logic_with_widgets_witness :
  exists p,
    main_logic {| age := 30; investment_horizon := 20;
                  current_savings := 10000; monthly_contribution := 200;
                  risk_tolerance := "Moderate" |} = Done p
    /\ shown_gains p = total_gains p.
Proof.
  destruct (main_logic_with_widgets
              {| age := 30; investment_horizon := 20;
                 current_savings := 10000; monthly_contribution := 200;
                 risk_tolerance := "Moderate" |})
    as (p & H1 & _ & _ & _ & _ & _ & H2).
  - unfold widgets_ok. cbn.
    repeat split; try lia. apply list_elem_of_In. simpl. tauto.
  - exists p. split; assumption.
Defined.


Lemma sidebar_button_flag (clicked : bool) (ss : gmap string bool) :
  sidebar_button clicked ss !! run_calculation
  = Some (clicked || default false (ss !! run_calculation)).
Proof.
  unfold sidebar_button. destruct clicked.
  - apply lookup_insert_eq.
  - destruct (ss !! run_calculation) as [b|] eqn:E; [exact E|].
    apply lookup_insert_eq.
Qed.

Lemma session_after_flag (clicks : list (bool * widgets)) :
  forall ss : gmap string bool,
    default false (session_after clicks ss !! run_calculation)
    = existsb fst clicks || default false (ss !! run_calculation).
Proof.
  unfold session_after.
  induction clicks as [|[c w] clicks IH]; intros ss; [reflexivity|].
  cbn [foldl existsb fst snd]. rewrite IH. cbn [rerun fst].
  rewrite sidebar_button_flag. cbn [default]. 
  destruct c, (existsb fst clicks); reflexivity.
Qed.

(** X8: in a session that started empty, a run of the script shows the
    plan exactly when the button is clicked in this run or was clicked in
    an earlier one: the flag is set by the sidebar before line 117 reads
    it (no [AttributeError]) and nothing ever resets it. *)
Theorem plan_shown_once_requested (clicks : list (bool * widgets))
    (clicked : bool) (w : widgets) :
  let session_state := session_after clicks ∅ in
  let requested := clicked || existsb fst clicks in
  (rerun clicked w session_state).1 !! run_calculation = Some requested
  /\ (rerun clicked w session_state).2
     = (if requested then p ← main_logic w; Done (PlanSummary p)
        else Done FillInProfile)
  /\ (rerun clicked w session_state).2 <> Stopped AttributeError.
Proof.
  intros session_state requested.
  assert (Hflag : sidebar_button clicked session_state !! run_calculation
                  = Some requested).
  { rewrite sidebar_button_flag. unfold session_state.
    rewrite session_after_flag, lookup_empty. cbn [default].
    now rewrite orb_false_r. }
  unfold rerun. cbn [fst snd]. rewrite Hflag.
  split; [reflexivity|]. split; [now destruct requested|].
  destruct requested; [|discriminate].
  destruct (main_logic w) as [p|e|] eqn:E; cbn [mbind script_bind]; try discriminate.
  intros [= ->]. revert E. unfold main_logic.
  repeat (match goal with
          | |- context [call ?x] => destruct x as [?|?|]
          | |- context [pd_DataFrame ?a ?b] =>
              unfold pd_DataFrame; destruct (decide (length a = length b))
          | |- context [last_item ?a] => unfold last_item; destruct (last a)
          | |- context [let '(_, _) := ?x in _] => destruct x
          end; cbn [call mbind script_bind]; try discriminate).
Qed.

Lemma table_return_positive (p : string) :
  p ∈ risk_profiles ->
  exists sw bw,
    weights p = Some (sw, bw)
    /\ 0.045 <= IZR sw / 100 * AVG_STOCK_RETURN
                + IZR bw / 100 * AVG_BOND_RETURN <= 0.075.
Proof.
  revert p.
  apply (risk_profiles_cases (fun p => exists sw bw,
           weights p = Some (sw, bw)
           /\ 0.045 <= IZR sw / 100 * AVG_STOCK_RETURN
                       + IZR bw / 100 * AVG_BOND_RETURN <= 0.075));
    eexists _, _; (split; [reflexivity|]);
    unfold AVG_STOCK_RETURN, AVG_BOND_RETURN; lra.
Qed.

(** X16: a negative horizon, which the slider cannot deliver, is stopped
    by nothing but the table constructor: the projection returns an empty
    years column beside a one-entry values column, and [pd.DataFrame]
    raises [ValueError]. *)
Theorem main_logic_negative_horizon (w : widgets) :
  risk_tolerance w ∈ risk_profiles ->
  (investment_horizon w < 0)%Z ->
  main_logic w = Stopped (Uncaught ValueError).
Proof.
  intros Hp Hh.
  destruct (table_return_positive _ Hp) as (sw & bw & Hw & Hr).
  unfold main_logic.
  destruct (getitem_of_weights _ _ _ Hw) as (alloc & -> & Hs & Hb).
  cbn [call mbind script_bind]. rewrite Hs. cbn [call mbind script_bind].
  rewrite Hb. cbn [call mbind script_bind].
  rewrite (calculate_portfolio_return_of_weights _ sw bw) by assumption.
  cbn [call mbind script_bind].
  rewrite project_portfolio_growth_ok by lra.
  cbn [call mbind script_bind]. unfold pd_DataFrame.
  destruct (decide _) as [He|_]; [|reflexivity].
  exfalso. unfold np_arange in He.
  rewrite length_seqZ, length_map, length_seq in He. lia.
Qed.

Lemma main_logic_negative_horizon_witness :
  main_logic {| age := 30; investment_horizon := -1;
                current_savings := 10000; monthly_contribution := 200;
                risk_tolerance := "Aggressive" |}
  = Stopped (Uncaught ValueError).
Proof.
  apply main_logic_negative_horizon.
  - apply list_elem_of_In. simpl. tauto.
  - simpl. lia.
Defined.

End RoboAdvisorExtras.

(** ** src/LawOfLargeNumbers.py *)

Module SimulationExtras.

Import LawOfLargeNumbers SimulationProofs.


Lemma run_simulation_cells (p : process) (n_flips n_sims : Z) :
  reachable p -> (0 < n_flips)%Z -> (0 < n_sims)%Z ->
  exists t,
    coin_table (Z.to_nat n_sims) (Z.to_nat n_flips) t
    /\ (run_simulation n_flips n_sims p).1 = Ok (map (proportion n_flips) t).
Proof.
  intros Hp Hf Hs.
  destruct (run_simulation_as_body n_flips n_sims p (reachable_sound p Hp))
    as [p0 ->].
  destruct (body_nonnegative n_flips n_sims p0) as (t & Ht & ->); [lia | lia |].
  exists t. split; [assumption|]. f_equal.
  apply map_ext. intros row. unfold np_true_divide, proportion.
  destruct (Z.eqb_spec n_flips 0); [lia | reflexivity].
Qed.

Lemma inject_Z_nonzero (n : Z) : (0 < n)%Z -> ~ (inject_Z n == 0)%Q.
Proof. intros Hn H. unfold Qeq, inject_Z in H. simpl in H. lia. Qed.

Lemma np_sum_proportions (n : Z) (t : list (list Z)) :
  (0 < n)%Z ->
  np_sum (map (proportion n) t)
  = Finite (Qred (inject_Z (total_heads t) / inject_Z n)).
Proof.
  intros Hn. pose proof (inject_Z_nonzero n Hn) as Hnz.
  induction t as [|row t IH].
  - cbn [map np_sum foldr]. apply f_equal.
    change 0%Q with (Qred 0) at 1. apply Qred_complete.
    unfold total_heads. cbn [map foldr]. field. exact Hnz.
  - cbn [map np_sum foldr]. fold (np_sum (map (proportion n) t)).
    rewrite IH. unfold proportion at 1. cbn [float64_add]. apply f_equal.
    apply Qred_complete. rewrite !Qred_correct.
    unfold total_heads. cbn [map foldr]. rewrite inject_Z_plus.
    field. exact Hnz.
Qed.

Lemma total_heads_bounds (rows cols : nat) (t : list (list Z)) :
  coin_table rows cols t ->
  (0 <= total_heads t <= Z.of_nat rows * Z.of_nat cols)%Z.
Proof.
  intros [Hlen Hall]. subst rows. unfold total_heads.
  induction Hall as [|row t [Hrow _] _ IH]; [simpl; lia|].
  cbn [map foldr length]. pose proof (heads_count_bounds row). nia.
Qed.

Lemma np_mean_of_table (n_flips n_sims : Z) (t : list (list Z)) :
  (0 < n_flips)%Z -> (0 < n_sims)%Z ->
  coin_table (Z.to_nat n_sims) (Z.to_nat n_flips) t ->
  np_mean (map (proportion n_flips) t)
  = Finite (Qred (inject_Z (total_heads t) / inject_Z (n_sims * n_flips)))
  /\ in_unit_interval (np_mean (map (proportion n_flips) t)).
Proof.
  intros Hf Hs Ht.
  pose proof (total_heads_bounds _ _ _ Ht) as Hb.
  destruct Ht as [Hlen _].
  assert (Hmean : np_mean (map (proportion n_flips) t)
                  = Finite (Qred (inject_Z (total_heads t)
                                  / inject_Z (n_sims * n_flips)))).
  { unfold np_mean. rewrite np_sum_proportions by assumption.
    rewrite length_map, Hlen. cbn [float64_div_count].
    destruct (Z.to_nat n_sims) as [|k] eqn:Ek; [lia|].
    apply f_equal. apply Qred_complete. rewrite Qred_correct.
    rewrite <- Ek, Z2Nat.id by lia. rewrite inject_Z_mult.
    field. split; apply inject_Z_nonzero; assumption. }
  split; [exact Hmean|].
  rewrite Hmean. rewrite !Z2Nat.id in Hb by lia.
  pose proof (np_true_divide_proportion (total_heads t) (n_sims * n_flips)
                Hb ltac:(lia)) as H.
  unfold np_true_divide in H.
  destruct (Z.eqb_spec (n_sims * n_flips) 0); [lia | exact H].
Qed.

Lemma proportion_candidates (n : Z) (row : list Z) :
  (0 <= n)%Z -> length row = Z.to_nat n ->
  proportion n row
  ∈ map (fun k : nat => Finite (Qred (inject_Z (Z.of_nat k) / inject_Z n)))
        (seq 0 (S (Z.to_nat n))).
Proof.
  intros Hn Hrow. apply list_elem_of_fmap.
  pose proof (heads_count_bounds row) as Hb.
  exists (Z.to_nat (heads_count row)). split.
  - unfold proportion. rewrite Z2Nat.id by lia. reflexivity.
  - apply elem_of_seq. lia.
Qed.

Lemma length_np_unique (x : list float64) :
  length (np_unique x) = length (remove_dups x).
Proof. unfold np_unique. now rewrite merge_sort_Permutation. Qed.

Lemma np_unique_of_table (n_flips n_sims : Z) (t : list (list Z)) :
  (0 < n_flips)%Z -> (0 < n_sims)%Z ->
  coin_table (Z.to_nat n_sims) (Z.to_nat n_flips) t ->
  (1 <= length (np_unique (map (proportion n_flips) t)))%nat
  /\ (Z.of_nat (length (np_unique (map (proportion n_flips) t)))
      <= Z.min n_sims (n_flips + 1))%Z.
Proof.
  intros Hf Hs [Hlen Hall]. rewrite length_np_unique.
  set (x := map (proportion n_flips) t).
  assert (Hx : length x = Z.to_nat n_sims) by (unfold x; now rewrite length_map).
  split.
  - destruct x as [|c x'] eqn:Ex; [simpl in Hx; lia|].
    assert (Hc : c ∈ remove_dups (c :: x'))
      by (apply elem_of_remove_dups; left).
    destruct (remove_dups (c :: x')); [inversion Hc | simpl; lia].
  - apply Z.min_glb.
    + assert (length (remove_dups x) <= length x)%nat; [|lia].
      apply submseteq_length, NoDup_submseteq; [apply NoDup_remove_dups|].
      intros c. apply elem_of_remove_dups.
    + assert (length (remove_dups x)
              <= length (map (fun k : nat =>
                                Finite (Qred (inject_Z (Z.of_nat k)
                                              / inject_Z n_flips)))
                           (seq 0 (S (Z.to_nat n_flips)))))%nat as Hle.
      { apply submseteq_length, NoDup_submseteq; [apply NoDup_remove_dups|].
        intros c Hc. rewrite elem_of_remove_dups in Hc. unfold x in Hc.
        apply list_elem_of_fmap in Hc as (row & -> & Hrow).
        rewrite Forall_forall in Hall.
        apply proportion_candidates; [lia|].
        now apply Hall. }
      rewrite length_map, length_seq in Hle. lia.
Qed.

(** X12: for positive counts the number of distinct proportions is at
    least 1 and at most the smaller of [n_sims] and [n_flips + 1]. *)
Theorem np_unique_of_run_simulation (p : process) (n_flips n_sims : Z) :
  reachable p -> (0 < n_flips)%Z -> (0 < n_sims)%Z ->
  exists x,
    (run_simulation n_flips n_sims p).1 = Ok x
    /\ (1 <= length (np_unique x))%nat
    /\ (Z.of_nat (length (np_unique x)) <= Z.min n_sims (n_flips + 1))%Z.
Proof.
  intros Hp Hf Hs.
  destruct (run_simulation_cells p n_flips n_sims Hp Hf Hs) as (t & Ht & Hrun).
  eexists. split; [exact Hrun|]. now apply np_unique_of_table.
Qed.

Lemma np_unique_of_run_simulation_witness :
  exists x,
    (run_simulation 3 2000 (fresh all_heads)).1 = Ok x
    /\ (length (np_unique x) <= 4)%nat.
Proof.
  destruct (np_unique_of_run_simulation (fresh all_heads) 3 2000)
    as (x & H1 & _ & H2).
  - exists all_heads. apply after_now.
  - lia.
  - lia.
  - exists x. split; [assumption | lia].
Defined.

(** X9: a call with non-negative counts that is not answered from the
    cache returns, consumes exactly [n_sims * n_flips] outcomes of the
    global generator and stores its result under its arguments, changing
    nothing else. *)
Theorem run_simulation_miss_effects (p : process) (n_flips n_sims : Z) :
  (0 <= n_flips)%Z -> (0 <= n_sims)%Z ->
  cache p !! (n_flips, n_sims) = None ->
  exists x,
    run_simulation n_flips n_sims p
    = (Ok x,
       {| cache := <[(n_flips, n_sims) := x]> (cache p);
          np_random :=
            {| bits := bits (np_random p);
               pos := pos (np_random p)
                      + Z.to_nat n_sims * Z.to_nat n_flips |} |}).
Proof.
  intros Hf Hs Hmiss. unfold run_simulation, st_cache_data. rewrite Hmiss.
  unfold run_simulation_body, mbind, sim_bind, np_random_randint_0_2.
  replace ((n_sims <? 0)%Z || (n_flips <? 0)%Z) with false
    by (symmetry; apply orb_false_iff; rewrite !Z.ltb_ge; tauto).
  pose proof (draw_rows_spec (Z.to_nat n_sims) (Z.to_nat n_flips) (np_random p))
    as (_ & Hb & Hp).
  destruct (draw_rows _ _ _) as [t [b k]]. simpl in *. subst b k.
  eexists. reflexivity.
Qed.

Lemma run_simulation_miss_effects_witness :
  exists x,
    pos (np_random (run_simulation 10 5 (fresh all_heads)).2) = 50%nat
    /\ cache (run_simulation 10 5 (fresh all_heads)).2 !! (10, 5)%Z = Some x.
Proof.
  destruct (run_simulation_miss_effects (fresh all_heads) 10 5) as [x ->].
  - lia.
  - lia.
  - reflexivity.
  - exists x. split; [reflexivity | apply lookup_insert_eq].
Defined.

(** X10: whatever calls were made, an entry of the cache is a complete
    result for its key: the counts of the key are non-negative (a call
    that raised left nothing behind), the entry has [n_sims] cells, they
    are all in [0, 1] when [n_flips] is positive and all not-a-number when
    it is 0. *)
Theorem cached_entries_are_results (p : process) (n_flips n_sims : Z)
    (x : list float64) :
  reachable p ->
  cache p !! (n_flips, n_sims) = Some x ->
  (0 <= n_flips)%Z /\ (0 <= n_sims)%Z
  /\ length x = Z.to_nat n_sims
  /\ ((0 < n_flips)%Z -> Forall in_unit_interval x)
  /\ (n_flips = 0%Z -> Forall (fun c => c = NaN) x).
Proof.
  intros Hp Hx. apply reachable_sound in Hp.
  destruct (Hp _ _ _ Hx) as [p0 H0].
  destruct (Z_lt_le_dec n_flips 0) as [Hf|Hf];
    [rewrite body_negative in H0 by tauto; discriminate|].
  destruct (Z_lt_le_dec n_sims 0) as [Hs|Hs];
    [rewrite body_negative in H0 by tauto; discriminate|].
  destruct (body_nonnegative n_flips n_sims p0 Hf Hs) as (t & [Hlen Hall] & Ht).
  rewrite Ht in H0. injection H0 as <-.
  repeat split; try assumption.
  - now rewrite length_map.
  - intros Hpos. apply Forall_map. eapply Forall_impl; [exact Hall|].
    intros row [Hrow _]. simpl. apply np_true_divide_proportion; [|lia].
    pose proof (heads_count_bounds row). lia.
  - intros ->. apply Forall_map. eapply Forall_impl; [exact Hall|].
    intros row [Hrow _]. simpl. destruct row; [reflexivity | discriminate].
Qed.

Lemma cached_entries_are_results_witness :
  cache (run_simulation 10 5 (fresh all_heads)).2 !! (10, 5)%Z
  = Some (replicate 5 (Finite 1))
  /\ length (replicate 5 (Finite 1)) = 5%nat.
Proof.
  assert (Hc : cache (run_simulation 10 5 (fresh all_heads)).2 !! (10, 5)%Z
               = Some (replicate 5 (Finite 1)))
    by (apply run_simulation_cache; vm_compute; reflexivity).
  split; [exact Hc|].
  refine (proj1 (proj2 (proj2
    (cached_entries_are_results _ 10 5 _ _ Hc)))).
  exists all_heads. apply after_call, after_now.
Defined.

Section Rationals.
Local Open Scope Q_scope.

Lemma np_sum_Finite (qs : list Q) :
  exists s, np_sum (map Finite qs) = Finite s /\ s == Qsum qs.
Proof.
  induction qs as [|q qs (s & Hs & Hq)].
  - exists 0. split; reflexivity.
  - exists (Qred (q + s)). split.
    + cbn [map np_sum foldr]. fold (np_sum (map Finite qs)). now rewrite Hs.
    + rewrite Qred_correct, Hq. reflexivity.
Qed.

Lemma count_positive {A : Type} (l : list A) :
  l <> [] -> 0 < inject_Z (Z.of_nat (length l)).
Proof.
  intros Hl. destruct l; [contradiction|].
  unfold Qlt, inject_Z. simpl. lia.
Qed.

Lemma np_mean_Finite (qs : list Q) :
  qs <> [] ->
  exists mu,
    np_mean (map Finite qs) = Finite mu
    /\ mu * inject_Z (Z.of_nat (length qs)) == Qsum qs.
Proof.
  intros Hne. destruct (np_sum_Finite qs) as (s & Hs & Hq).
  pose proof (count_positive qs Hne) as Hn.
  unfold np_mean. rewrite Hs, length_map.
  destruct qs as [|q qs']; [contradiction|].
  set (n := length (q :: qs')) in *.
  exists (Qred (s / inject_Z (Z.of_nat n))). split; [reflexivity|].
  rewrite Qred_correct, <- Hq. field.
  intros H0. rewrite H0 in Hn. now apply Qlt_irrefl in Hn.
Qed.

Lemma Qsum_le (f g : Q -> Q) (qs : list Q) :
  Forall (fun q => f q <= g q) qs ->
  Qsum (map f qs) <= Qsum (map g qs).
Proof.
  induction 1 as [|q qs Hq _ IH]; [apply Qle_refl|].
  cbn [map Qsum foldr]. now apply Qplus_le_compat.
Qed.

Lemma Qsum_affine (a b : Q) (qs : list Q) :
  Qsum (map (fun q => q * a + b) qs)
  == a * Qsum qs + inject_Z (Z.of_nat (length qs)) * b.
Proof.
  induction qs as [|q qs IH].
  - cbn. ring.
  - cbn [map Qsum foldr length]. fold (Qsum (map (fun q => q * a + b) qs)).
    fold (Qsum qs). rewrite IH, Nat2Z.inj_succ. unfold Z.succ.
    rewrite inject_Z_plus. ring.
Qed.

Lemma Qsum_zero (qs : list Q) : Qsum (map (fun _ => 0) qs) == 0.
Proof.
  induction qs as [|q qs IH]; [reflexivity|].
  cbn [map Qsum foldr]. fold (Qsum (map (fun _ : Q => 0) qs)).
  rewrite IH. ring.
Qed.

Lemma Qsquare_nonneg (a : Q) : 0 <= a * a.
Proof. Lqa.nra. Qed.

Lemma deviation_bound (q mu : Q) :
  0 <= q -> q <= 1 ->
  (q - mu) * (q - mu) <= q * (1 - 2 * mu) + mu * mu.
Proof. intros. Lqa.nra. Qed.

Lemma spread_bound (N mu : Q) :
  0 < N -> (1 - 2 * mu) * (mu * N) + N * (mu * mu) <= N * (1 # 4).
Proof.
  intros.
  assert (0 <= N * ((mu - (1 # 2)) * (mu - (1 # 2))))
    by (apply Qmult_le_0_compat; [Lqa.lra | apply Qsquare_nonneg]).
  Lqa.lra.
Qed.

Lemma quotient_bounds (v N : Q) :
  0 < N -> 0 <= v * N -> v * N <= N * (1 # 4) -> 0 <= v /\ v <= 1 # 4.
Proof. intros. split; Lqa.nra. Qed.

Lemma np_var_bounds (qs : list Q) :
  qs <> [] -> Forall (fun q => 0 <= q /\ q <= 1) qs ->
  exists v, np_var (map Finite qs) = Finite v /\ 0 <= v /\ v <= 1 # 4.
Proof.
  intros Hne Hall.
  destruct (np_mean_Finite qs Hne) as (mu & Hmean & Hmu).
  pose proof (count_positive qs Hne) as Hn.
  set (N := inject_Z (Z.of_nat (length qs))) in *.
  set (dev := fun q : Q => Qred (Qred (q - mu) * Qred (q - mu))).
  assert (Hdevs : map (fun c => float64_square (float64_sub c (Finite mu)))
                      (map Finite qs)
                  = map Finite (map dev qs)).
  { rewrite !map_map. apply map_ext. intros q. reflexivity. }
  assert (Hne' : map dev qs <> [])
    by (destruct qs; [contradiction | discriminate]).
  destruct (np_mean_Finite (map dev qs) Hne') as (v & Hv & Hvq).
  rewrite length_map in Hvq. fold N in Hvq.
  exists v. split; [unfold np_var; now rewrite Hmean, Hdevs|].
  apply (quotient_bounds v N Hn); rewrite Hvq.
  - rewrite <- (Qsum_zero qs). apply Qsum_le.
    eapply Forall_impl; [exact Hall|]. intros q _. unfold dev.
    rewrite !Qred_correct. apply Qsquare_nonneg.
  - eapply Qle_trans.
    + apply (Qsum_le dev (fun q => q * (1 - 2 * mu) + mu * mu)).
      eapply Forall_impl; [exact Hall|]. intros q [H0 H1]. unfold dev.
      rewrite !Qred_correct. now apply deviation_bound.
    + rewrite Qsum_affine. fold N. rewrite <- Hmu.
      now apply spread_bound.
Qed.

Lemma sqrt_quarter : sqrt (1 / 4) = (1 / 2)%R.
Proof.
  replace (1 / 4)%R with ((1 / 2) * (1 / 2))%R by lra.
  apply sqrt_square. lra.
Qed.

Lemma np_sqrt_bounds (v : Q) :
  0 <= v -> v <= 1 # 4 ->
  exists sd, np_sqrt (Finite v) = Exactly sd /\ (0 <= sd <= 1 / 2)%R.
Proof.
  intros H0 H1. unfold np_sqrt.
  destruct (Qlt_le_dec v 0) as [Hneg|_];
    [exfalso; exact (Qlt_not_le _ _ Hneg H0)|].
  eexists. split; [reflexivity|]. split; [apply sqrt_pos|].
  rewrite <- sqrt_quarter. apply sqrt_le_1_alt.
  apply Qreals.Qle_Rle in H1. unfold Q2R at 2 in H1. simpl in H1. lra.
Qed.

Lemma proportions_as_rationals (n_flips : Z) (rows : nat) (t : list (list Z)) :
  (0 < n_flips)%Z -> coin_table rows (Z.to_nat n_flips) t ->
  exists qs,
    map (proportion n_flips) t = map Finite qs
    /\ length qs = rows
    /\ Forall (fun q => 0 <= q /\ q <= 1) qs.
Proof.
  intros Hf [Hlen Hall].
  exists (map (fun row => Qred (inject_Z (heads_count row) / inject_Z n_flips)) t).
  split; [now rewrite map_map|]. split; [now rewrite length_map|].
  apply Forall_map. eapply Forall_impl; [exact Hall|].
  intros row [Hrow _].
  pose proof (np_true_divide_proportion (heads_count row) n_flips) as H.
  unfold np_true_divide in H.
  destruct (Z.eqb_spec n_flips 0); [lia|].
  apply H; [|lia]. pose proof (heads_count_bounds row). lia.
Qed.

Lemma np_std_of_table (n_flips n_sims : Z) (t : list (list Z)) :
  (0 < n_flips)%Z -> (0 < n_sims)%Z ->
  coin_table (Z.to_nat n_sims) (Z.to_nat n_flips) t ->
  exists sd,
    np_std (map (proportion n_flips) t) = Exactly sd
    /\ (0 <= sd <= 1 / 2)%R.
Proof.
  intros Hf Hs Ht.
  destruct (proportions_as_rationals n_flips _ t Hf Ht)
    as (qs & Hqs & Hlen & Hall).
  assert (Hne : qs <> []) by (destruct qs; [simpl in Hlen; lia | discriminate]).
  destruct (np_var_bounds qs Hne Hall) as (v & Hv & H0 & H1).
  destruct (np_sqrt_bounds v H0 H1) as (sd & Hsd & Hb).
  exists sd. split; [|exact Hb].
  unfold np_std. now rewrite Hqs, Hv.
Qed.



End Rationals.

Lemma script_of_run (s : sliders) (p : process) (x : list float64) :
  (run_simulation (num_flips_per_sim s) (num_simulations s) p).1 = Ok x ->
  (script s p).1
  = Ok {| proportions := x;
          average_proportion := np_mean x;
          standard_deviation := np_std x;
          unique_proportions := length (np_unique x);
          nbinsx := Z.min 50 (num_flips_per_sim s + 1) |}.
Proof.
  unfold script, mbind, sim_bind.
  destruct (run_simulation _ _ p) as [[x'|e|] p']; simpl; try discriminate.
  now intros [= ->].
Qed.

(** X13: for every pair of values the two sliders can deliver, a run of
    the script completes without an exception; the proportions and their
    mean are in [0, 1], their standard deviation is between 0 and 1/2,
    the histogram is asked for between 2 and 50 bins,
    and below 50 flips per simulation there are at least as many bins as
    distinct proportions. *)
Theorem script_with_sliders (s : sliders) (p : process) :
  sliders_ok s -> reachable p ->
  exists pg,
    (script s p).1 = Ok pg
    /\ length (proportions pg) = Z.to_nat (num_simulations s)
    /\ Forall in_unit_interval (proportions pg)
    /\ in_unit_interval (average_proportion pg)
    /\ (exists sd, standard_deviation pg = Exactly sd /\ (0 <= sd <= 1 / 2)%R)
    /\ (1 <= unique_proportions pg)%nat
    /\ (2 <= nbinsx pg <= 50)%Z
    /\ ((num_flips_per_sim s < 50)%Z ->
        (Z.of_nat (unique_proportions pg) <= nbinsx pg)%Z).
Proof.
  intros (Hf & Hs & _) Hp.
  destruct (run_simulation_cells p (num_flips_per_sim s) (num_simulations s)
              Hp ltac:(lia) ltac:(lia)) as (t & Ht & Hrun).
  eexists. split; [apply script_of_run; exact Hrun|].
  cbn [proportions average_proportion standard_deviation
       unique_proportions nbinsx].
  pose proof (np_std_of_table (num_flips_per_sim s) (num_simulations s) t
                ltac:(lia) ltac:(lia) Ht) as Hstd.
  pose proof (np_mean_of_table (num_flips_per_sim s) (num_simulations s) t
                ltac:(lia) ltac:(lia) Ht) as [_ Hmean].
  pose proof (np_unique_of_table (num_flips_per_sim s) (num_simulations s) t
                ltac:(lia) ltac:(lia) Ht) as [Hu1 Hu2].
  destruct Ht as [Hlen Hall].
  split; [now rewrite length_map|].
  split.
  { apply Forall_map. eapply Forall_impl; [exact Hall|].
    intros row [Hrow _]. unfold proportion.
    pose proof (np_true_divide_proportion (heads_count row)
                  (num_flips_per_sim s)) as H.
    unfold np_true_divide in H.
    destruct (Z.eqb_spec (num_flips_per_sim s) 0); [lia|].
    apply H; [|lia]. pose proof (heads_count_bounds row). lia. }
  split; [exact Hmean|]. split; [exact Hstd|]. split; [exact Hu1|].
  split; [lia|]. intros Hlt. lia.
Qed.

Lemma script_with_sliders_witness :
  exists pg,
    (script {| num_flips_per_sim := 50; num_simulations := 100 |}
       (fresh all_heads)).1 = Ok pg
    /\ (2 <= nbinsx pg <= 50)%Z.
Proof.
  destruct (script_with_sliders
              {| num_flips_per_sim := 50; num_simulations := 100 |}
              (fresh all_heads))
    as (pg & H1 & _ & _ & _ & _ & _ & H2 & _).
  - unfold sliders_ok. cbn. repeat split; lia.
  - exists all_heads. apply after_now.
  - exists pg. split; assumption.
Defined.

Lemma draw_row_complement (cols : nat) : forall g,
  draw_row cols (complement g)
  = (map (fun b => 1 - b)%Z (draw_row cols g).1,
     complement (draw_row cols g).2).
Proof.
  induction cols as [|cols IH]; intros g; [reflexivity|].
  cbn [draw_row next_bit].
  change {| bits := bits (complement g); pos := S (pos (complement g)) |}
    with (complement {| bits := bits g; pos := S (pos g) |}).
  rewrite IH.
  destruct (draw_row cols {| bits := bits g; pos := S (pos g) |}) as [row g2].
  cbn [fst snd map]. f_equal. f_equal.
  cbn [complement bits pos]. now destruct (bits g (pos g)).
Qed.

Lemma draw_rows_complement (rows cols : nat) : forall g,
  draw_rows rows cols (complement g)
  = (map (map (fun b => 1 - b)%Z) (draw_rows rows cols g).1,
     complement (draw_rows rows cols g).2).
Proof.
  induction rows as [|rows IH]; intros g; [reflexivity|].
  cbn [draw_rows]. rewrite draw_row_complement.
  destruct (draw_row cols g) as [row g1]. cbn [fst snd]. rewrite IH.
  now destruct (draw_rows rows cols g1) as [rest g2].
Qed.

Lemma sum_complement (row : list Z) :
  foldr Z.add 0%Z (map (fun b => 1 - b)%Z row)
  = (Z.of_nat (length row) - foldr Z.add 0%Z row)%Z.
Proof. induction row as [|b row IH]; cbn [map foldr length]; lia. Qed.

Lemma heads_counts_complement (rows cols : nat) (t : list (list Z)) :
  coin_table rows cols t ->
  np_sum_axis1 (map (map (fun b => 1 - b)%Z) t)
  = map (fun k => (Z.of_nat cols - k)%Z) (np_sum_axis1 t).
Proof.
  intros [_ Hall]. unfold np_sum_axis1. rewrite !map_map.
  induction Hall as [|row t [Hrow _] _ IH]; [reflexivity|].
  cbn [map]. rewrite IH. f_equal. now rewrite sum_complement, Hrow.
Qed.

(** X14: heads and tails are treated alike: if two calls with the same
    counts, neither answered from the cache, draw from generators that
    deliver opposite outcomes, then where a run of the first call has [k]
    heads the same run of the second has [n_flips - k], and the two calls
    return these counts divided by [n_flips]. *)
Theorem run_simulation_heads_tails_symmetry (p1 p2 : process)
    (n_flips n_sims : Z) :
  (0 < n_flips)%Z -> (0 <= n_sims)%Z ->
  cache p1 !! (n_flips, n_sims) = None ->
  cache p2 !! (n_flips, n_sims) = None ->
  np_random p2 = complement (np_random p1) ->
  let heads_counts :=
    np_sum_axis1
      (draw_rows (Z.to_nat n_sims) (Z.to_nat n_flips) (np_random p1)).1 in
  (run_simulation n_flips n_sims p1).1
  = Ok (map (fun k => np_true_divide k n_flips) heads_counts)
  /\ (run_simulation n_flips n_sims p2).1
     = Ok (map (fun k => np_true_divide (n_flips - k) n_flips) heads_counts).
Proof.
  intros Hf Hs H1 H2 Hg heads_counts. unfold heads_counts.
  unfold run_simulation, st_cache_data. rewrite H1, H2.
  unfold run_simulation_body, mbind, sim_bind, np_random_randint_0_2.
  replace ((n_sims <? 0)%Z || (n_flips <? 0)%Z) with false
    by (symmetry; apply orb_false_iff; rewrite !Z.ltb_ge; lia).
  rewrite Hg, draw_rows_complement.
  pose proof (draw_rows_spec (Z.to_nat n_sims) (Z.to_nat n_flips) (np_random p1))
    as (Ht & _).
  destruct (draw_rows _ _ (np_random p1)) as [t g']. cbn [fst snd] in *.
  split; [reflexivity|]. cbn [fst mret sim_ret]. apply f_equal.
  rewrite (heads_counts_complement _ _ _ Ht), map_map.
  apply map_ext. intros k. now rewrite Z2Nat.id by lia.
Qed.

Lemma run_simulation_heads_tails_symmetry_witness :
  (run_simulation 10 5 (fresh all_heads)).1 = Ok (replicate 5 (Finite 1))
  /\ (run_simulation 10 5 (fresh all_tails)).1 = Ok (replicate 5 (Finite 0)).
Proof.
  destruct (run_simulation_heads_tails_symmetry
              (fresh all_heads) (fresh all_tails) 10 5) as [H1 H2].
  - lia.
  - lia.
  - reflexivity.
  - reflexivity.
  - reflexivity.
  - rewrite H1, H2. split; vm_compute; reflexivity.
Defined.

End SimulationExtras.
